(** * playwright-mcp: the HTML-source and request-info tools

    A shallow embedding of [src/tools/htmlsource.ts] (preset resolution,
    the compression stage and the paginator of [browser_get_html_source])
    and of [src/tools/network.ts] (the request recorder, the cookie filter,
    [parsePostData] and [generateCurlCommand] of [browser_get_request_info]),
    followed by the properties of these functions.

    JavaScript strings are sequences of UTF-16 code units; a number is a
    finite value (a rational), an infinity or NaN, and a length is an
    integer; an absent optional property is [None]. *)

From Stdlib Require Import String Ascii List ZArith NArith QArith_base Bool Lia.
Import ListNotations.
Close Scope Q_scope.

Set Implicit Arguments.

(* ================================================================== *)
(** * Part I. Definitions                                              *)
(* ================================================================== *)

(** ** JavaScript string primitives *)

Module JS.

(** A UTF-16 code unit. *)
Definition char16 := N.

(** A JavaScript string. *)
Definition jsstring := list char16.

(** An ASCII literal of the source as a JavaScript string. *)
Definition lit (s : string) : jsstring :=
  map N_of_ascii (list_ascii_of_string s).

(** [s.length] *)
Definition len (s : jsstring) : Z := Z.of_nat (length s).

(** [a === b] on strings. *)
Fixpoint str_eqb (a b : jsstring) : bool :=
  match a, b with
  | [], [] => true
  | x :: a', y :: b' => N.eqb x y && str_eqb a' b'
  | _, _ => false
  end.

(** Truthiness of a string: only the empty string is falsy. *)
Definition truthy (s : jsstring) : bool :=
  match s with [] => false | _ :: _ => true end.

(** [a || b] on strings. *)
Definition or_else (a b : jsstring) : jsstring :=
  if truthy a then a else b.

(** *** Numbers

    A number is a finite value, an infinity or NaN.  A finite value is
    given by a rational (every double is one); an infinity is what a JSON
    number such as [1e999] parses to.  The sum of two finite values is
    their rational sum: double addition is exact on integers as long as
    the sum stays within 2^53, and a sum beyond that rounds to a value
    that is still beyond every string length, which is all that
    [Math.min], [slice] and [<] look at. *)
Inductive number := Fin (q : Q) | PosInf | NegInf | NaN.

(** An integer as a number. *)
Definition ofZ (z : Z) : number := Fin (inject_Z z).

(** Truthiness of a number: 0 and NaN are falsy. *)
Definition truthyNum (x : number) : bool :=
  match x with
  | Fin q => negb (Qnum q =? 0)%Z
  | NaN => false
  | PosInf | NegInf => true
  end.

(** [a || b] on numbers. *)
Definition or_num (a b : number) : number := if truthyNum a then a else b.

(** [a + b] *)
Definition num_add (a b : number) : number :=
  match a, b with
  | NaN, _ | _, NaN => NaN
  | Fin p, Fin q => Fin (Qplus p q)
  | PosInf, NegInf | NegInf, PosInf => NaN
  | PosInf, _ | _, PosInf => PosInf
  | NegInf, _ | _, NegInf => NegInf
  end.

(** [a < b]; false when either side is NaN. *)
Definition num_ltb (a b : number) : bool :=
  match a, b with
  | NaN, _ | _, NaN => false
  | Fin p, Fin q => (Qnum p * Zpos (Qden q) <? Qnum q * Zpos (Qden p))%Z
  | _, NegInf => false
  | NegInf, _ => true
  | PosInf, _ => false
  | _, PosInf => true
  end.

(** [Math.min(a, b)]; NaN when either side is NaN. *)
Definition num_min (a b : number) : number :=
  match a, b with
  | NaN, _ | _, NaN => NaN
  | _, _ => if num_ltb b a then b else a
  end.

(** ToIntegerOrInfinity of a finite value: the fraction is dropped. *)
Definition trunc (q : Q) : Z := Z.quot (Qnum q) (Zpos (Qden q)).

(** The relative index of [slice]: a negative index counts from the end,
    and the result is clamped to [0, len]. *)
Definition relIndex (n i : Z) : Z :=
  if (i <? 0)%Z then Z.max (n + i) 0 else Z.min i n.

(** The index [slice] makes of an argument: ToIntegerOrInfinity (NaN is
    0), then the relative index; the infinities are the two ends. *)
Definition sliceIndex (n : Z) (x : number) : Z :=
  match x with
  | Fin q => relIndex n (trunc q)
  | NaN => relIndex n 0
  | PosInf => n
  | NegInf => 0%Z
  end.

(** [s.slice(start, end)]; [end_ = None] is the one-argument call. *)
Definition slice (s : jsstring) (start : number) (end_ : option number)
  : jsstring :=
  let n := len s in
  let from := sliceIndex n start in
  let to := match end_ with None => n | Some e => sliceIndex n e end in
  if (to <=? from)%Z then []
  else firstn (Z.to_nat (to - from)) (skipn (Z.to_nat from) s).

(** [s.startsWith(p)] *)
Fixpoint startsWith (s p : jsstring) : bool :=
  match p, s with
  | [], _ => true
  | y :: p', x :: s' => N.eqb x y && startsWith s' p'
  | _ :: _, [] => false
  end.

(** [s.endsWith(p)] *)
Definition endsWith (s p : jsstring) : bool :=
  (length p <=? length s)%nat && str_eqb (skipn (length s - length p) s) p.

(** [s.includes(p)] *)
Fixpoint includes (s p : jsstring) : bool :=
  startsWith s p || match s with [] => false | _ :: s' => includes s' p end.

(** [xs.join(sep)] *)
Fixpoint join (sep : jsstring) (xs : list jsstring) : jsstring :=
  match xs with
  | [] => []
  | [x] => x
  | x :: rest => x ++ sep ++ join sep rest
  end.

(** The characters matched by the regular-expression class [\s] and removed
    by [trim]: WhiteSpace and LineTerminator of ECMAScript. *)
Definition isWhiteSpace (c : char16) : bool :=
  ((9 <=? c) && (c <=? 13) || (c =? 32) || (c =? 160) || (c =? 5760)
   || (8192 <=? c) && (c <=? 8202) || (c =? 8232) || (c =? 8233)
   || (c =? 8239) || (c =? 8287) || (c =? 12288) || (c =? 65279))%N.

(** Length of the longest prefix of [s] matched by [\s*]. *)
Fixpoint wsRun (s : jsstring) : nat :=
  match s with
  | c :: r => if isWhiteSpace c then S (wsRun r) else O
  | [] => O
  end.

(** [s.trimStart()] *)
Fixpoint trimStart (s : jsstring) : jsstring :=
  match s with
  | c :: r => if isWhiteSpace c then trimStart r else s
  | [] => []
  end.

(** [s.trimEnd()] *)
Fixpoint trimEnd (s : jsstring) : jsstring :=
  match s with
  | [] => []
  | c :: r =>
      match trimEnd r with
      | [] => if isWhiteSpace c then [] else [c]
      | r' => c :: r'
      end
  end.

(** [s.trim()] *)
Definition trim (s : jsstring) : jsstring := trimEnd (trimStart s).

(** [s.replace(/re/g, rep)] for a pattern that never matches the empty
    string.  [m t] is the length of the match of the pattern at the start
    of [t], if there is one.  The scan goes left to right; after a match
    it resumes behind the match ([skip] counts the characters of the
    current match still to be passed over). *)
Fixpoint replaceAll (m : jsstring -> option nat) (rep : jsstring)
    (skip : nat) (s : jsstring) {struct s} : jsstring :=
  match s with
  | [] => []
  | c :: r =>
      match skip with
      | S k => replaceAll m rep k r
      | O =>
          match m s with
          | Some (S k) => rep ++ replaceAll m rep k r
          | _ => c :: replaceAll m rep O r
          end
      end
  end.

(** The pattern [\s+]: a greedy, non-empty run of white space. *)
Definition match_ws (s : jsstring) : option nat :=
  match wsRun s with
  | O => None
  | n => Some n
  end.

(** The pattern [>\s+<]: a [>], a greedy non-empty run of white space and
    a [<].  Giving back white space cannot help, the character after a
    shorter run is white space and not [<]. *)
Definition match_gt_ws_lt (s : jsstring) : option nat :=
  match s with
  | c :: r =>
      if (c =? 62)%N then
        match wsRun r, skipn (wsRun r) r with
        | S _, d :: _ => if (d =? 60)%N then Some (S (wsRun r) + 1)%nat else None
        | _, _ => None
        end
      else None
  | [] => None
  end.

(** *** Shapes of text

    [headWs s]: [s] starts with white space.  [startsGap s]: [s] is a
    non-empty run of white space followed by [<], what [>\s+<] needs
    behind its [>].  [hasGap s]: [>\s+<] matches somewhere in [s].
    [wsNormal s]: every white-space character of [s] is a space that is
    not followed by white space. *)

Definition headWs (s : jsstring) : bool :=
  match s with
  | c :: _ => isWhiteSpace c
  | [] => false
  end.

Definition startsGap (s : jsstring) : bool :=
  headWs s && match trimStart s with
              | d :: _ => (d =? 60)%N
              | [] => false
              end.

Fixpoint hasGap (s : jsstring) : bool :=
  match s with
  | [] => false
  | c :: r => (c =? 62)%N && startsGap r || hasGap r
  end.

Fixpoint wsNormal (s : jsstring) : bool :=
  match s with
  | [] => true
  | c :: r =>
      (if isWhiteSpace c then (c =? 32)%N && negb (headWs r) else true)
      && wsNormal r
  end.

End JS.

Import JS.

(** ** [browser_get_html_source] (htmlsource.ts) *)

Module HtmlSource.

(** The arguments of the tool, as [inputSchema] types them; every property
    is optional. *)
Record Params := mkParams {
  compress : option bool;
  excludeTags : option (list jsstring);
  includeComments : option bool;
  prettyPrint : option bool;
  selector : option jsstring;
  maxLength : option number;
  offset : option number;
  headOnly : option bool;
  bodyOnly : option bool;
  preset : option jsstring
}.

(** [interface HtmlSourceResponse] *)
Record HtmlSourceResponse := mkResponse {
  content : jsstring;
  totalLength : Z;
  hasMore : bool;
  actualOffset : number;
  actualLength : Z
}.

(** The names [z.enum(['full', 'minimal', 'structure', 'content'])] lists. *)
Definition presetNames : list jsstring :=
  [lit "full"; lit "minimal"; lit "structure"; lit "content"].

(** [preset: z.enum([...]).optional()]: the value is absent or one of the
    listed names; any other string fails to parse. *)
Definition presetSchema (v : option jsstring) : bool :=
  match v with
  | None => true
  | Some p => existsb (str_eqb p) presetNames
  end.

(** [z.number().optional()]: the value is absent or a number; NaN fails
    to parse, fractions, negative numbers and the infinities pass. *)
Definition numberSchema (v : option number) : bool :=
  match v with
  | Some NaN => false
  | _ => true
  end.

(** [inputSchema.parse]: the other properties are typed by [Params]
    already, so parsing succeeds exactly when [preset], [maxLength] and
    [offset] do. *)
Definition inputSchema (args : Params) : option Params :=
  if presetSchema (preset args) && numberSchema (maxLength args)
     && numberSchema (offset args)
  then Some args else None.

(** [{ ...params, excludeTags: tags, compress: true }] *)
Definition withTagsCompressed (params : Params) (tags : list jsstring) : Params :=
  mkParams (Some true) (Some tags) (includeComments params)
    (prettyPrint params) (selector params) (maxLength params)
    (offset params) (headOnly params) (bodyOnly params) (preset params).

(** [{ ...params, excludeTags: tags, compress: true, includeComments: false }] *)
Definition withTagsCompressedNoComments (params : Params) (tags : list jsstring)
  : Params :=
  mkParams (Some true) (Some tags) (Some false)
    (prettyPrint params) (selector params) (maxLength params)
    (offset params) (headOnly params) (bodyOnly params) (preset params).

(** "Apply preset configurations": the [if (params.preset)] and its
    [switch], from [handle]. *)
Definition applyPreset (params : Params) : Params :=
  match preset params with
  | None => params
  | Some p =>
      if negb (truthy p) then params
      else if str_eqb p (lit "minimal") then
        withTagsCompressedNoComments params
          [lit "script"; lit "style"; lit "noscript"]
      else if str_eqb p (lit "structure") then
        withTagsCompressed params [lit "script"; lit "style"]
      else if str_eqb p (lit "content") then
        withTagsCompressed params
          [lit "script"; lit "style"; lit "meta"; lit "link"]
      else if str_eqb p (lit "full") then params
      else params
  end.

(** "Apply compression": [htmlSource.replace(/>\s+</g, '><')
    .replace(/\s+/g, ' ').trim()]. *)
Definition compressStage (htmlSource : jsstring) : jsstring :=
  trim (replaceAll match_ws (lit " ") 0
          (replaceAll match_gt_ws_lt (lit "><") 0 htmlSource)).

(** The end of [handle], from [const totalLength] to the [response]
    object: the window of the filtered [htmlSource] that is returned. *)
Definition paginate (htmlSource : jsstring)
    (offsetArg maxLengthArg : option number) : HtmlSourceResponse :=
  let totalLength := len htmlSource in
  let offset :=
    match offsetArg with Some o => or_num o (ofZ 0) | None => ofZ 0 end in
  match maxLengthArg with
  | Some maxLength =>
      let endPos := num_min (num_add offset maxLength) (ofZ totalLength) in
      let resultContent := slice htmlSource offset (Some endPos) in
      mkResponse resultContent totalLength (num_ltb endPos (ofZ totalLength))
        offset (len resultContent)
  | None =>
      let resultContent :=
        if num_ltb (ofZ 0) offset then slice htmlSource offset None
        else htmlSource in
      mkResponse resultContent totalLength false offset (len resultContent)
  end.


End HtmlSource.

(** ** [browser_get_request_info] (network.ts) *)

Module Network.

(** ASCII letters to lower case, every other code unit unchanged. *)
Definition asciiLower (c : char16) : char16 :=
  if ((65 <=? c) && (c <=? 90))%N then (c + 32)%N else c.

(** What the tool takes from the JavaScript engine and does not define:
    [String.prototype.toLowerCase], of which only the behaviour on ASCII
    text is fixed here, and the decoding [URLSearchParams] applies to each
    name and value of a form body ([+] to space, percent-decoding, UTF-8
    decoding). *)
Class Runtime := {
  toLowerCase : jsstring -> jsstring;
  decodeFormComponent : jsstring -> jsstring;
  toLowerCase_ascii :
    forall s, Forall (fun c => (c < 128)%N) s -> toLowerCase s = map asciiLower s
}.

(** An exception thrown by the engine. *)
Inductive JsError := TypeError | URIError.

(** A computation that returns a value or throws. *)
Inductive Outcome (A : Type) : Type :=
| Ok (a : A)
| Throw (e : JsError).
Arguments Ok {A} a.
Arguments Throw {A} e.

Definition bind {A B} (x : Outcome A) (f : A -> Outcome B) : Outcome B :=
  match x with
  | Ok a => f a
  | Throw e => Throw e
  end.

Notation "x <- c ;; k" := (bind c (fun x => k))
  (at level 61, c at next level, right associativity).

(** [xs.map(f)] for an [f] that may throw: the first exception ends it. *)
Fixpoint mapM {A B} (f : A -> Outcome B) (xs : list A) : Outcome (list B) :=
  match xs with
  | [] => Ok []
  | x :: rest => y <- f x ;; ys <- mapM f rest ;; Ok (y :: ys)
  end.

(** A headers object, as [Object.entries] enumerates it. *)
Definition Headers := list (jsstring * jsstring).

(** [h[key]]; [None] is [undefined]. *)
Fixpoint getHeader (h : Headers) (key : jsstring) : option jsstring :=
  match h with
  | [] => None
  | (k, v) :: rest => if str_eqb k key then Some v else getHeader rest key
  end.

(** [h[key] = v]: an existing property keeps its place, a new one is
    enumerated last. *)
Fixpoint setHeader (h : Headers) (key v : jsstring) : Headers :=
  match h with
  | [] => [(key, v)]
  | (k, w) :: rest =>
      if str_eqb k key then (k, v) :: rest else (k, w) :: setHeader rest key v
  end.

(** Truthiness of [h[key]]: [undefined] and the empty string are falsy. *)
Definition truthyOpt (v : option jsstring) : bool :=
  match v with
  | Some s => truthy s
  | None => false
  end.

(** What the tool reads of a [playwright.Request]. *)
Record Request := mkRequest {
  resourceType : jsstring;
  req_url : jsstring;
  req_method : jsstring;
  req_headers : Headers;
  req_postData : option jsstring
}.

(** The object [captureRequest] and the no-reload branch assign to
    [requestInfo]. *)
Record Snapshot := mkSnapshot {
  ri_url : jsstring;
  ri_method : jsstring;
  ri_headers : Headers;
  ri_postData : option jsstring
}.

(** [requestInfo]: [None] is the initial [{}]. *)
Definition RequestInfo := option Snapshot.

(** A cookie of [page.context().cookies()], with the properties the
    response keeps. *)
Record Cookie := mkCookie {
  name : jsstring;
  value : jsstring;
  domain : jsstring;
  path : jsstring;
  httpOnly : bool;
  secure : bool
}.

(** An entry of [postData.params]. *)
Record FormParam := mkParam {
  p_name : jsstring;
  p_value : jsstring
}.

(** [response.postData] *)
Record PostData := mkPostData {
  contentType : jsstring;
  params : list FormParam
}.

(** [response] before [curlCommand] is added; the timestamp is left out. *)
Record Response := mkInfo {
  url : jsstring;
  method : jsstring;
  headers : Headers;
  cookies : list Cookie;
  postData : option PostData
}.

(** [request.postData() || null] *)
Definition orNull (v : option jsstring) : option jsstring :=
  match v with
  | Some s => if truthy s then Some s else None
  | None => None
  end.

(** The listener [captureRequest]: what a [request] event does to
    [requestInfo]. *)
Definition captureRequest (requestInfo : RequestInfo) (request : Request)
  : RequestInfo :=
  if str_eqb (resourceType request) (lit "document") then
    Some (mkSnapshot (req_url request) (req_method request)
            (req_headers request) (orNull (req_postData request)))
  else requestInfo.

(** [requestInfo] when the response is built.  The listener is attached
    for the whole call; [events] are the requests it sees, in order,
    while the call waits: on [page.reload] and the cookie read with
    [reload], where [requestInfo] starts as [{}], and on the cookie read
    alone without it, where [requestInfo] has just been made from
    [page.url()]. *)
Definition recordRequest (reload : bool) (pageUrl : jsstring)
    (events : list Request) : RequestInfo :=
  fold_left captureRequest events
    (if reload then None
     else Some (mkSnapshot pageUrl (lit "GET") [] None)).

(** [cookie.domain.startsWith('.') ? cookie.domain : '.' + cookie.domain] *)
Definition cookieDomain (cookie : Cookie) : jsstring :=
  if startsWith (domain cookie) (lit ".") then domain cookie
  else lit "." ++ domain cookie.

(** The predicate of [cookies.filter]; [hostname] is
    [new URL(requestInfo.url || page.url()).hostname]. *)
Definition cookieMatches (hostname : jsstring) (cookie : Cookie) : bool :=
  endsWith hostname (slice (cookieDomain cookie) (ofZ 1) None)
  || str_eqb hostname (domain cookie).

(** [cookiesForCurrentPage] *)
Definition cookiesForCurrentPage (hostname : jsstring) (jar : list Cookie)
  : list Cookie :=
  filter (cookieMatches hostname) jar.

(** [cs.map(c => `${c.name}=${c.value}`).join('; ')] *)
Definition cookieString (cs : list Cookie) : jsstring :=
  join (lit "; ") (map (fun c => name c ++ lit "=" ++ value c) cs).

(** [s.split(sep)] for a one-character separator. *)
Fixpoint split (sep : char16) (s : jsstring) : list jsstring :=
  match s with
  | [] => [[]]
  | c :: r =>
      if (c =? sep)%N then [] :: split sep r
      else match split sep r with
           | h :: t => (c :: h) :: t
           | [] => [[c]]
           end
  end.

(** [s] before and behind its first [sep]; all of [s] and the empty
    string when there is none. *)
Fixpoint cutAt (sep : char16) (s : jsstring) : jsstring * jsstring :=
  match s with
  | [] => ([], [])
  | c :: r =>
      if (c =? sep)%N then ([], r)
      else let (a, b) := cutAt sep r in (c :: a, b)
  end.

(** [Array.from(new URLSearchParams(init).entries())]: a leading [?] is
    dropped, the text is cut at every [&], empty pieces are skipped, and
    each piece is cut at its first [=] and decoded. *)
Definition urlSearchParams `{Runtime} (init : jsstring) : list FormParam :=
  let body :=
    match init with
    | c :: r => if (c =? 63)%N then r else init
    | [] => []
    end in
  flat_map
    (fun piece =>
       match piece with
       | [] => []
       | _ :: _ =>
           let (n, v) := cutAt 61%N piece in
           [mkParam (decodeFormComponent n) (decodeFormComponent v)]
       end)
    (split 38%N body).

(** [parsePostData] *)
Definition parsePostData `{Runtime} (postData : jsstring)
    (contentType : option jsstring) : list FormParam :=
  if negb (truthyOpt contentType)
     || match contentType with
        | Some ct => includes ct (lit "application/x-www-form-urlencoded")
        | None => false
        end
  then urlSearchParams postData
  else [mkParam (lit "raw") postData].

(** The characters [encodeURIComponent] leaves as they are:
    letters, digits and [- _ . ! ~ * ' ( )]. *)
Definition uriUnreserved (c : char16) : bool :=
  ((65 <=? c) && (c <=? 90) || (97 <=? c) && (c <=? 122)
   || (48 <=? c) && (c <=? 57)
   || (c =? 45) || (c =? 95) || (c =? 46) || (c =? 33) || (c =? 126)
   || (c =? 42) || (c =? 39) || (c =? 40) || (c =? 41))%N.

Definition hexDigit (n : N) : char16 :=
  if (n <? 10)%N then (48 + n)%N else (55 + n)%N.

(** [%XX] for one byte. *)
Definition pctByte (b : N) : jsstring :=
  [37%N; hexDigit (b / 16); hexDigit (b mod 16)].

(** The UTF-8 bytes of a code point. *)
Definition utf8 (cp : N) : list N :=
  (if cp <? 128 then [cp]
   else if cp <? 2048 then [192 + cp / 64; 128 + cp mod 64]
   else if cp <? 65536 then
     [224 + cp / 4096; 128 + (cp / 64) mod 64; 128 + cp mod 64]
   else [240 + cp / 262144; 128 + (cp / 4096) mod 64;
         128 + (cp / 64) mod 64; 128 + cp mod 64])%N.

Definition isHighSurrogate (c : char16) : bool :=
  ((55296 <=? c) && (c <=? 56319))%N.

Definition isLowSurrogate (c : char16) : bool :=
  ((56320 <=? c) && (c <=? 57343))%N.

(** [encodeURIComponent]: a lone surrogate throws [URIError]. *)
Fixpoint encodeURIComponent (s : jsstring) : Outcome jsstring :=
  match s with
  | [] => Ok []
  | c :: r =>
      if uriUnreserved c then
        t <- encodeURIComponent r ;; Ok (c :: t)
      else if isLowSurrogate c then Throw URIError
      else if isHighSurrogate c then
        match r with
        | d :: r' =>
            if isLowSurrogate d then
              t <- encodeURIComponent r' ;;
              Ok (flat_map pctByte
                    (utf8 ((c - 55296) * 1024 + (d - 56320) + 65536)%N) ++ t)
            else Throw URIError
        | [] => Throw URIError
        end
      else
        t <- encodeURIComponent r ;; Ok (flat_map pctByte (utf8 c) ++ t)
  end.

(** [`'${s}'`] *)
Definition quoted (s : jsstring) : jsstring := lit "'" ++ s ++ lit "'".

(** [skipHeaders.includes(key.toLowerCase())] *)
Definition skipped `{Runtime} (key : jsstring) : bool :=
  existsb (str_eqb (toLowerCase key)) [lit "cookie"; lit "content-length"].

(** The callback of [Object.entries(info.headers).forEach]. *)
Definition pushHeader `{Runtime} (parts : list jsstring)
    (entry : jsstring * jsstring) : list jsstring :=
  let (key, v) := entry in
  if negb (skipped key) then parts ++ [lit "-H"; quoted (key ++ lit ": " ++ v)]
  else parts.

(** [parts] of [generateCurlCommand] when it reaches [parts.join(' ')]. *)
Definition generateCurlParts `{Runtime} (info : Response)
  : Outcome (list jsstring) :=
  let parts := [lit "curl"] in
  let parts :=
    if negb (str_eqb (method info) (lit "GET"))
    then parts ++ [lit "-X"; method info] else parts in
  let parts := parts ++ [quoted (url info)] in
  let parts := fold_left pushHeader (headers info) parts in
  let parts :=
    match cookies info with
    | [] => parts
    | _ :: _ =>
        parts ++ [lit "-H"; quoted (lit "Cookie: " ++ cookieString (cookies info))]
    end in
  match postData info with
  | None => Ok parts
  | Some pd =>
      match params pd with
      | [] => Throw TypeError
      | first :: _ =>
          if str_eqb (p_name first) (lit "raw") then
            Ok (parts ++ [lit "-d"; quoted (p_value first)])
          else
            pairs <- mapM (fun p =>
                       n <- encodeURIComponent (p_name p) ;;
                       v <- encodeURIComponent (p_value p) ;;
                       Ok (n ++ lit "=" ++ v)) (params pd) ;;
            Ok (parts ++ [lit "-d"; quoted (join (lit "&") pairs)])
      end
  end.

(** [generateCurlCommand] *)
Definition generateCurlCommand `{Runtime} (info : Response) : Outcome jsstring :=
  parts <- generateCurlParts info ;; Ok (join (lit " ") parts).

(** "Add cookie header if not present": [response.headers] after the
    [if (cookiesForCurrentPage.length > 0 && !response.headers['cookie'])]. *)
Definition addCookieHeader (headers0 : Headers) (matched : list Cookie)
  : Headers :=
  match matched with
  | _ :: _ =>
      if negb (truthyOpt (getHeader headers0 (lit "cookie")))
      then setHeader headers0 (lit "Cookie") (cookieString matched)
      else headers0
  | [] => headers0
  end.

(** "Add POST data if present": [response.postData]; [hdrs] is
    [requestInfo.headers], the object [response.headers] also names. *)
Definition addPostData `{Runtime} (requestInfo : RequestInfo) (hdrs : Headers)
  : option PostData :=
  match requestInfo with
  | Some s =>
      match ri_postData s with
      | Some body =>
          if truthy body then
            let ct := getHeader hdrs (lit "content-type") in
            Some (mkPostData
                    (match ct with
                     | Some c => or_else c (lit "application/x-www-form-urlencoded")
                     | None => lit "application/x-www-form-urlencoded"
                     end)
                    (parsePostData body ct))
          else None
      | None => None
      end
  | None => None
  end.

(** "Build response" of [handle], with the cookie header and the POST
    data added: [response] when [generateCurlCommand] is called on it. *)
Definition buildResponse `{Runtime} (requestInfo : RequestInfo)
    (pageUrl : jsstring) (matched : list Cookie) : Response :=
  let url0 :=
    match requestInfo with
    | Some s => or_else (ri_url s) pageUrl
    | None => pageUrl
    end in
  let method0 :=
    match requestInfo with
    | Some s => or_else (ri_method s) (lit "GET")
    | None => lit "GET"
    end in
  let headers0 :=
    match requestInfo with Some s => ri_headers s | None => [] end in
  let headers1 := addCookieHeader headers0 matched in
  mkInfo url0 method0 headers1 matched (addPostData requestInfo headers1).

(** The rest of [handle] once [requestInfo] and the matching cookies are
    known: the response and its [curlCommand]. *)
Definition respond `{Runtime} (requestInfo : RequestInfo) (pageUrl : jsstring)
    (matched : list Cookie) : Outcome (Response * jsstring) :=
  let response := buildResponse requestInfo pageUrl matched in
  cmd <- generateCurlCommand response ;; Ok (response, cmd).

Definition hexValue (c : char16) : option N :=
  (if (48 <=? c) && (c <=? 57) then Some (c - 48)
   else if (65 <=? c) && (c <=? 70) then Some (c - 55)
   else if (97 <=? c) && (c <=? 102) then Some (c - 87)
   else None)%N.

(** [+] to space and percent-decoding; a decoded byte outside ASCII is
    given as U+FFFD. *)
Fixpoint asciiFormDecode (s : jsstring) : jsstring :=
  match s with
  | [] => []
  | c :: r =>
      if (c =? 43)%N then 32%N :: asciiFormDecode r
      else if (c =? 37)%N then
        match r with
        | h :: l :: r' =>
            match hexValue h, hexValue l with
            | Some a, Some b =>
                (if (a * 16 + b <? 128)%N then (a * 16 + b)%N else 65533%N)
                :: asciiFormDecode r'
            | _, _ => c :: asciiFormDecode r
            end
        | _ => c :: asciiFormDecode r
        end
      else c :: asciiFormDecode r
  end.

(** The engine on ASCII text: on strings of ASCII characters whose
    percent-escapes decode to ASCII, these are [toLowerCase] and the form
    decoding of [URLSearchParams]. *)
Definition asciiRuntime : Runtime :=
  {| toLowerCase := map asciiLower;
     decodeFormComponent := asciiFormDecode;
     toLowerCase_ascii := fun s _ => eq_refl |}.

(** *** The command, part by part

    The arguments [generateCurlCommand] pushes for one header, before the
    cookies, for the cookies and for the body; and a capture without its
    [cookie] headers. *)

Definition headerArgs `{Runtime} (entry : jsstring * jsstring) : list jsstring :=
  if negb (skipped (fst entry))
  then [lit "-H"; quoted (fst entry ++ lit ": " ++ snd entry)]
  else [].

Definition baseArgs `{Runtime} (info : Response) : list jsstring :=
  ([lit "curl"]
   ++ (if negb (str_eqb (method info) (lit "GET"))
       then [lit "-X"; method info] else []))
  ++ [quoted (url info)] ++ flat_map headerArgs (headers info).

Definition cookieArgs (cs : list Cookie) : list jsstring :=
  match cs with
  | [] => []
  | _ :: _ => [lit "-H"; quoted (lit "Cookie: " ++ cookieString cs)]
  end.

Definition dataArgs (pd : option PostData) : Outcome (list jsstring) :=
  match pd with
  | None => Ok []
  | Some d =>
      match params d with
      | [] => Throw TypeError
      | first :: _ =>
          if str_eqb (p_name first) (lit "raw") then
            Ok [lit "-d"; quoted (p_value first)]
          else
            pairs <- mapM (fun p =>
                       n <- encodeURIComponent (p_name p) ;;
                       v <- encodeURIComponent (p_value p) ;;
                       Ok (n ++ lit "=" ++ v)) (params d) ;;
            Ok [lit "-d"; quoted (join (lit "&") pairs)]
      end
  end.

Definition isCookieHeader `{Runtime} (entry : jsstring * jsstring) : bool :=
  str_eqb (toLowerCase (fst entry)) (lit "cookie").

Definition withoutCookieHeader `{Runtime} (requestInfo : RequestInfo)
  : RequestInfo :=
  match requestInfo with
  | Some s =>
      Some (mkSnapshot (ri_url s) (ri_method s)
              (filter (fun e => negb (isCookieHeader e)) (ri_headers s))
              (ri_postData s))
  | None => None
  end.

End Network.

(** ** The rest of [handle] of [browser_get_html_source] *)

Module Pipeline.

Import HtmlSource.

(** [s.indexOf(p)]; [None] is -1. *)
Fixpoint indexOf (p s : jsstring) : option nat :=
  if startsWith s p then Some O
  else match s with
       | [] => None
       | _ :: r => option_map S (indexOf p r)
       end.

(** The pattern [<!--[\s\S]*?-->]: the opening [<!--], as few characters
    as possible, and the first [-->] behind the opening. *)
Definition match_comment (s : jsstring) : option nat :=
  if startsWith s (lit "<!--") then
    match indexOf (lit "-->") (skipn 4 s) with
    | Some j => Some (4 + j + 3)%nat
    | None => None
    end
  else None.

(** "Remove comments": [htmlSource.replace(/<!--[\s\S]*?-->/g, '')]. *)
Definition stripComments (htmlSource : jsstring) : jsstring :=
  replaceAll match_comment [] 0 htmlSource.

(** The pattern [><]. *)
Definition match_tag_boundary (s : jsstring) : option nat :=
  if startsWith s (lit "><") then Some 2%nat else None.

(** LineTerminator of ECMAScript, what [^] and [$] look at under the [m]
    flag. *)
Definition isLineTerminator (c : char16) : bool :=
  ((c =? 10) || (c =? 13) || (c =? 8232) || (c =? 8233))%N.

(** The alternative [\s+$] under the [m] flag, at the start of [s]: the
    longest run of white space that ends the input or stands before a
    line terminator (the greedy [\s+] gives characters back until [$]
    holds). *)
Fixpoint match_ws_eol (s : jsstring) : option nat :=
  match s with
  | c :: r =>
      if isWhiteSpace c then
        match match_ws_eol r with
        | Some k => Some (S k)
        | None =>
            match r with
            | [] => Some 1%nat
            | d :: _ => if isLineTerminator d then Some 1%nat else None
            end
        end
      else None
  | [] => None
  end.

(** [s.replace(/^\s+|\s+$/gm, '')].  [lineStart] says whether [^] holds
    at the current position (the start of the input, or behind a line
    terminator); there the first alternative takes the whole run of
    white space, elsewhere only the second alternative can match.
    [skip] is as in [replaceAll]. *)
Fixpoint trimLines (lineStart : bool) (skip : nat) (s : jsstring) {struct s}
  : jsstring :=
  match s with
  | [] => []
  | c :: r =>
      match skip with
      | S k => trimLines (isLineTerminator c) k r
      | O =>
          match (if lineStart then match_ws s else match_ws_eol s) with
          | Some (S k) => trimLines (isLineTerminator c) k r
          | _ => c :: trimLines (isLineTerminator c) O r
          end
      end
  end.

(** "Apply pretty printing": [htmlSource.replace(/></g, '>\n<')
    .replace(/^\s+|\s+$/gm, '')]. *)
Definition prettyPrintStage (htmlSource : jsstring) : jsstring :=
  trimLines true 0
    (replaceAll match_tag_boundary (lit ">" ++ [10%N] ++ lit "<") 0 htmlSource).

(** Truthiness of an optional boolean property. *)
Definition isTrue (v : option bool) : bool :=
  match v with
  | Some true => true
  | _ => false
  end.

(** The string stages of [handle], from "Remove comments if not included"
    to "Apply pretty printing". *)
Definition filterSource (finalParams : Params) (htmlSource : jsstring)
  : jsstring :=
  let h1 :=
    if negb (isTrue (includeComments finalParams))
    then stripComments htmlSource else htmlSource in
  let h2 := if isTrue (compress finalParams) then compressStage h1 else h1 in
  if isTrue (prettyPrint finalParams) && negb (isTrue (compress finalParams))
  then prettyPrintStage h2 else h2.

(** What [handle] asks of the page: its serialization, the removal of the
    elements a selector matches, and the outer markup of all or of the
    first element a selector matches.  [None] is a call that throws (a
    selector that does not parse; for [outerHTML], no matching element);
    a removal that throws leaves the page as it is. *)
Class Browser := {
  dom : Type;
  pageContent : dom -> jsstring;
  removeAll : jsstring -> dom -> option dom;
  outerHTMLAll : jsstring -> dom -> option (list jsstring);
  outerHTML : jsstring -> dom -> option jsstring
}.

(** The loop over [finalParams.excludeTags]; an exception is ignored. *)
Definition removeTags `{Browser} (tags : list jsstring) (d : dom) : dom :=
  fold_left
    (fun d tag => match removeAll tag d with Some d' => d' | None => d end)
    tags d.

(** [`<!-- Selector "${selector}" not found -->`] *)
Definition selectorNotFound (sel : jsstring) : jsstring :=
  lit "<!-- Selector " ++ [34%N] ++ sel ++ [34%N] ++ lit " not found -->".

(** "Apply selector filter or head/body extraction". *)
Definition selectRegion `{Browser} (finalParams : Params) (d : dom)
    (htmlSource : jsstring) : jsstring :=
  match selector finalParams with
  | Some (c :: sel) =>
      match outerHTMLAll (c :: sel) d with
      | Some els => or_else (join [10%N] els) (selectorNotFound (c :: sel))
      | None => selectorNotFound (c :: sel)
      end
  | _ =>
      if isTrue (headOnly finalParams) then
        match outerHTML (lit "head") d with
        | Some h => h
        | None => lit "<!-- No <head> section found -->"
        end
      else if isTrue (bodyOnly finalParams) then
        match outerHTML (lit "body") d with
        | Some b => b
        | None => lit "<!-- No <body> section found -->"
        end
      else htmlSource
  end.

(** [handle]: the page it leaves behind and the response it returns. *)
Definition handle `{Browser} (params : Params) (d : dom)
  : dom * HtmlSourceResponse :=
  let finalParams := applyPreset params in
  let d1 :=
    match excludeTags finalParams with
    | Some (t :: tags) => removeTags (t :: tags) d
    | _ => d
    end in
  let htmlSource := selectRegion finalParams d1 (pageContent d1) in
  (d1, paginate (filterSource finalParams htmlSource)
         (offset finalParams) (maxLength finalParams)).

(** *** Vocabulary of the properties

    [nonWhite s]: the characters of [s] that are not white space, in
    order.  [noStraddle y]: no [-->] can start in a text that does not
    hold one and end in [y] put behind it. *)

Definition nonWhite (s : jsstring) : jsstring :=
  filter (fun c => negb (isWhiteSpace c)) s.

Definition noStraddle (y : jsstring) : bool :=
  match y with
  | [] => true
  | c :: r =>
      negb (c =? 62)%N
      && negb ((c =? 45)%N
               && match r with d :: _ => (d =? 62)%N | [] => false end)
  end.

(** [s] with a line feed put between every [>] and the [<] that follows
    it directly. *)
Fixpoint breakTags (s : jsstring) : jsstring :=
  match s with
  | [] => []
  | c :: r =>
      if (c =? 62)%N && match r with d :: _ => (d =? 60)%N | [] => false end
      then c :: 10%N :: breakTags r
      else c :: breakTags r
  end.

(** A page in which no selector matches an element; its state is its
    serialization. *)
Definition barePage : Browser :=
  {| dom := jsstring;
     pageContent := fun d => d;
     removeAll := fun _ d => Some d;
     outerHTMLAll := fun _ _ => Some [];
     outerHTML := fun _ _ => None |}.

End Pipeline.

(** ** Vocabulary for the properties of [browser_get_request_info] *)

Module RequestShapes.

Import Network.

(** A request of resource type [document]. *)
Definition isDocument (r : Request) : bool :=
  str_eqb (resourceType r) (lit "document").

(** The cookie's domain without one leading dot. *)
Definition bareDomain (cookie : Cookie) : jsstring :=
  if startsWith (domain cookie) (lit ".") then tl (domain cookie)
  else domain cookie.

(** A body without the one leading [?] that [URLSearchParams] drops. *)
Definition withoutQuestionMark (body : jsstring) : jsstring :=
  match body with
  | c :: r => if (c =? 63)%N then r else body
  | [] => []
  end.

(** The test of [parsePostData]: no content type, or a form one. *)
Definition isFormType (contentType : option jsstring) : bool :=
  negb (truthyOpt contentType)
  || match contentType with
     | Some ct => includes ct (lit "application/x-www-form-urlencoded")
     | None => false
     end.

(** Percent-encoding character by character, as [encodeURIComponent]
    does it on ASCII text. *)
Definition encodeAscii (s : jsstring) : jsstring :=
  flat_map (fun c => if uriUnreserved c then [c] else pctByte c) s.

(** [info] with other headers. *)
Definition withHeaders (info : Response) (h : Headers) : Response :=
  mkInfo (url info) (method info) h (cookies info) (postData info).

(** The numbers below [n], for case analysis by computation. *)
Definition below (n : nat) : list N := map N.of_nat (seq 0 n).

(** The fields [URLSearchParams] makes of one piece between two [&]. *)
Definition fieldsOfPiece `{Runtime} (piece : jsstring) : list FormParam :=
  match piece with
  | [] => []
  | _ :: _ =>
      let (n, v) := cutAt 61%N piece in
      [mkParam (decodeFormComponent n) (decodeFormComponent v)]
  end.

(** [name=value] of a field, percent-encoded as on ASCII text. *)
Definition encodePair (p : FormParam) : jsstring :=
  encodeAscii (p_name p) ++ lit "=" ++ encodeAscii (p_value p).

(** A field of ASCII characters. *)
Definition asciiField (p : FormParam) : Prop :=
  Forall (fun c => (c < 128)%N) (p_name p)
  /\ Forall (fun c => (c < 128)%N) (p_value p).

(** A character that is none of [&], [=] and [?]. *)
Definition plainChar (c : char16) : bool :=
  (negb (c =? 38) && negb (c =? 61) && negb (c =? 63))%N.

End RequestShapes.

(* ================================================================== *)
(** * Part II. Properties                                              *)
(* ================================================================== *)

(** ** Strings *)

Section StringFacts.

Lemma str_eqb_eq (a b : jsstring) : str_eqb a b = true <-> a = b.
Proof.
  revert b; induction a as [|x a IH]; intros [|y b]; simpl;
    try (split; [discriminate | congruence]); try tauto.
  rewrite andb_true_iff, N.eqb_eq, IH.
  split; [intros [-> ->]; reflexivity | intros E; inversion E; auto].
Qed.

Lemma str_eqb_refl (a : jsstring) : str_eqb a a = true.
Proof. apply str_eqb_eq; reflexivity. Qed.

Lemma str_eqb_neq (a b : jsstring) : str_eqb a b = false <-> a <> b.
Proof.
  rewrite <- str_eqb_eq. destruct (str_eqb a b); split; congruence.
Qed.

Lemma endsWith_spec (s p : jsstring) :
  endsWith s p = true <-> exists q, s = q ++ p.
Proof.
  unfold endsWith; rewrite andb_true_iff, Nat.leb_le, str_eqb_eq; split.
  - intros [_ E]. exists (firstn (length s - length p) s).
    transitivity (firstn (length s - length p) s ++ skipn (length s - length p) s).
    + symmetry; apply firstn_skipn.
    + f_equal; exact E.
  - intros [q ->]. rewrite length_app. split; [lia|].
    replace (length q + length p - length p)%nat with (length q + 0)%nat by lia.
    rewrite skipn_app, skipn_all2 by lia.
    replace (length q + 0 - length q)%nat with 0%nat by lia. reflexivity.
Qed.

Lemma len_nonneg (s : jsstring) : (0 <= len s)%Z.
Proof. unfold len; lia. Qed.

Lemma relIndex_range (n i : Z) : (0 <= n -> 0 <= relIndex n i <= n)%Z.
Proof. unfold relIndex; destruct (i <? 0)%Z eqn:E; lia. Qed.

Lemma trunc_inject_Z (z : Z) : trunc (inject_Z z) = z.
Proof. unfold trunc, inject_Z. cbn [Qnum Qden]. apply Z.quot_1_r. Qed.

(** On an integer argument [slice] takes the relative index of it. *)
Lemma sliceIndex_ofZ (n i : Z) : sliceIndex n (ofZ i) = relIndex n i.
Proof. unfold sliceIndex, ofZ. rewrite trunc_inject_Z. reflexivity. Qed.

Lemma sliceIndex_range (n : Z) (x : number) :
  (0 <= n -> 0 <= sliceIndex n x <= n)%Z.
Proof.
  intros Hn. destruct x as [q| | |]; cbn [sliceIndex];
    try apply relIndex_range; lia.
Qed.

(** The length of a slice, from its two indices. *)
Lemma len_slice (s : jsstring) (a : number) (e : option number) :
  len (slice s a e) =
  Z.max 0 (match e with None => len s | Some b => sliceIndex (len s) b end
           - sliceIndex (len s) a).
Proof.
  unfold slice.
  set (n := len s).
  set (to := match e with None => n | Some b => sliceIndex n b end).
  pose proof (len_nonneg s) as Hn. fold n in Hn.
  pose proof (sliceIndex_range a Hn) as Ha.
  assert (Hto : (0 <= to <= n)%Z).
  { subst to; destruct e; [apply sliceIndex_range; assumption | lia]. }
  destruct (to <=? sliceIndex n a)%Z eqn:E.
  - apply Z.leb_le in E. unfold len; simpl. lia.
  - apply Z.leb_gt in E. unfold len.
    rewrite length_firstn, length_skipn.
    unfold n, len in *. lia.
Qed.

(** [slice] on integer arguments, by the relative indices. *)
Lemma slice_ofZ (s : jsstring) (a : Z) (e : option Z) :
  slice s (ofZ a) (option_map ofZ e)
  = if (match e with None => len s | Some b => relIndex (len s) b end
        <=? relIndex (len s) a)%Z
    then []
    else firstn
           (Z.to_nat (match e with None => len s | Some b => relIndex (len s) b end
                      - relIndex (len s) a))
           (skipn (Z.to_nat (relIndex (len s) a)) s).
Proof.
  unfold slice. rewrite sliceIndex_ofZ.
  destruct e as [b|]; cbn [option_map]; rewrite ?sliceIndex_ofZ; reflexivity.
Qed.


Lemma slice_1 (s : jsstring) : slice s (ofZ 1) None = tl s.
Proof.
  change (@None number) with (option_map ofZ None). rewrite slice_ofZ.
  destruct s as [|c r]; [reflexivity|].
  unfold relIndex, len. cbn [Z.ltb Z.compare tl].
  destruct (Z.of_nat (length (c :: r)) <=? Z.min 1 (Z.of_nat (length (c :: r))))%Z
    eqn:E.
  - apply Z.leb_le in E. simpl length in E.
    destruct r; [reflexivity | simpl length in E; lia].
  - simpl length.
    replace (Z.to_nat (Z.min 1 (Z.of_nat (S (length r))))) with 1%nat by lia.
    replace (Z.to_nat (Z.of_nat (S (length r)) - Z.min 1 (Z.of_nat (S (length r)))))
      with (length r) by lia.
    simpl. apply firstn_all.
Qed.

End StringFacts.

(** ** The paginator *)

Section Paginator.

Import HtmlSource.

(** *** Integers as numbers *)

Lemma or_num_ofZ (o : Z) : or_num (ofZ o) (ofZ 0) = ofZ o.
Proof.
  unfold or_num, ofZ, truthyNum, inject_Z. cbn [Qnum].
  destruct (o =? 0)%Z eqn:E; [|reflexivity].
  apply Z.eqb_eq in E. subst o. reflexivity.
Qed.

Lemma num_ltb_ofZ (a b : Z) : num_ltb (ofZ a) (ofZ b) = (a <? b)%Z.
Proof.
  unfold num_ltb, ofZ, inject_Z. cbn [Qnum Qden]. rewrite !Z.mul_1_r.
  reflexivity.
Qed.

(** [Math.min(offset + maxLength, totalLength)] on integers is an integer,
    the smaller of the sum and the length. *)
Lemma endPos_ofZ (o M n : Z) :
  exists q,
    num_min (num_add (ofZ o) (ofZ M)) (ofZ n) = Fin q
    /\ Qnum q = Z.min (o + M) n /\ Qden q = 1%positive.
Proof.
  unfold num_min, num_add, num_ltb, ofZ, inject_Z, Qplus.
  cbn [Qnum Qden Pos.mul]. rewrite !Z.mul_1_r.
  destruct (n <? o + M)%Z eqn:E; eexists; (split; [reflexivity|]);
    cbn [Qnum Qden]; [apply Z.ltb_lt in E | apply Z.ltb_ge in E];
    split; try reflexivity; lia.
Qed.

Lemma sliceIndex_endPos (o M n k : Z) :
  sliceIndex k (num_min (num_add (ofZ o) (ofZ M)) (ofZ n))
  = relIndex k (Z.min (o + M) n).
Proof.
  destruct (endPos_ofZ o M n) as [q [-> [Hn Hd]]].
  cbn [sliceIndex]. unfold trunc. rewrite Hn, Hd, Z.quot_1_r. reflexivity.
Qed.

Lemma num_ltb_endPos (o M n : Z) :
  num_ltb (num_min (num_add (ofZ o) (ofZ M)) (ofZ n)) (ofZ n)
  = (Z.min (o + M) n <? n)%Z.
Proof.
  destruct (endPos_ofZ o M n) as [q [-> [Hn Hd]]].
  unfold num_ltb, ofZ, inject_Z. cbn [Qnum Qden].
  rewrite Hn, Hd, !Z.mul_1_r. reflexivity.
Qed.

Variable s : jsstring.

(** [paginate] on integer arguments, in integer arithmetic. *)
Lemma paginate_ofZ (o M : Z) :
  paginate s (Some (ofZ o)) (Some (ofZ M))
  = mkResponse
      (slice s (ofZ o) (Some (ofZ (Z.min (o + M) (len s)))))
      (len s) (Z.min (o + M) (len s) <? len s)%Z (ofZ o)
      (len (slice s (ofZ o) (Some (ofZ (Z.min (o + M) (len s)))))).
Proof.
  unfold paginate. rewrite or_num_ofZ, num_ltb_endPos.
  assert (E : slice s (ofZ o)
                (Some (num_min (num_add (ofZ o) (ofZ M)) (ofZ (len s))))
              = slice s (ofZ o) (Some (ofZ (Z.min (o + M) (len s))))).
  { unfold slice. rewrite sliceIndex_endPos, !sliceIndex_ofZ. reflexivity. }
  rewrite E. reflexivity.
Qed.

Lemma paginate_ofZ_open (o : Z) :
  paginate s (Some (ofZ o)) None
  = mkResponse
      (if (0 <? o)%Z then slice s (ofZ o) None else s)
      (len s) false (ofZ o)
      (len (if (0 <? o)%Z then slice s (ofZ o) None else s)).
Proof.
  unfold paginate. rewrite or_num_ofZ, num_ltb_ofZ. reflexivity.
Qed.

(** An omitted offset is the offset 0. *)
Lemma paginate_no_offset (maxLen : option number) :
  paginate s None maxLen = paginate s (Some (ofZ 0)) maxLen.
Proof. reflexivity. Qed.

Lemma paginate_totalLength (off maxLen : option number) :
  totalLength (paginate s off maxLen) = len s.
Proof. unfold paginate; destruct maxLen; reflexivity. Qed.

Lemma paginate_actualLength (off maxLen : option number) :
  actualLength (paginate s off maxLen) = len (content (paginate s off maxLen)).
Proof. unfold paginate; destruct maxLen; reflexivity. Qed.



End Paginator.

Section PaginatorClaims.

Import HtmlSource.



(** With a negative offset the equation for [hasMore] fails as well:
    the window [bc] ends the text, and [-2 + 2 < 3]. *)
Example paginate_negative_offset_hasMore :
  paginate (lit "abc") (Some (ofZ (-2))) (Some (ofZ 5))
  = mkResponse (lit "bc") 3 false (ofZ (-2)) 2.
Proof. reflexivity. Qed.

(** C6.  A negative integer offset is neither rejected nor clamped: a
    response is returned and [actualOffset] is the negative offset.
    Without [maxLength] the guard [offset > 0] keeps the whole text.
    With [maxLength] there is no guard and the window starts at the index
    [max (len + offset) 0], counted back from the end; when it reaches
    the end of the text, the content is the last [- offset] characters. *)
Theorem paginate_negative_offset (s : jsstring) (off : Z) (maxLen : option Z) :
  (off < 0)%Z ->
  actualOffset (paginate s (Some (ofZ off)) (option_map ofZ maxLen)) = ofZ off
  /\ match maxLen with
     | None =>
         content (paginate s (Some (ofZ off)) None) = s
         /\ hasMore (paginate s (Some (ofZ off)) None) = false
     | Some M =>
         content (paginate s (Some (ofZ off)) (Some (ofZ M)))
         = slice s (ofZ (Z.max (len s + off) 0))
             (Some (ofZ (Z.min (off + M) (len s))))
         /\ ((- len s <= off)%Z -> (len s <= off + M)%Z ->
             content (paginate s (Some (ofZ off)) (Some (ofZ M)))
             = skipn (Z.to_nat (len s + off)) s
             /\ actualLength (paginate s (Some (ofZ off)) (Some (ofZ M)))
                = (- off)%Z
             /\ hasMore (paginate s (Some (ofZ off)) (Some (ofZ M))) = false)
     end.
Proof.
  intros Hoff. pose proof (len_nonneg s) as Hn.
  assert (Eoff : (off <? 0)%Z = true) by (apply Z.ltb_lt; lia).
  destruct maxLen as [M|]; cbn [option_map];
    rewrite ?paginate_ofZ, ?paginate_ofZ_open;
    cbn [actualOffset actualLength hasMore content].
  - split; [reflexivity|]. split.
    + change (Some (ofZ (Z.min (off + M) (len s))))
        with (option_map ofZ (Some (Z.min (off + M) (len s)))).
      rewrite !slice_ofZ. unfold relIndex. rewrite Eoff.
      destruct (Z.max (len s + off) 0 <? 0)%Z eqn:E;
        [apply Z.ltb_lt in E; lia|].
      rewrite (Z.min_l (Z.max (len s + off) 0) (len s)) by lia. reflexivity.
    + intros Hlo Hhi.
      rewrite (Z.min_r (off + M) (len s)) by lia.
      assert (Ec : slice s (ofZ off) (Some (ofZ (len s)))
                   = skipn (Z.to_nat (len s + off)) s).
      { change (Some (ofZ (len s))) with (option_map ofZ (Some (len s))).
        rewrite slice_ofZ. unfold relIndex. rewrite Eoff.
        destruct (len s <? 0)%Z eqn:E; [apply Z.ltb_lt in E; lia|].
        rewrite Z.min_id, Z.max_l by lia.
        destruct (len s <=? len s + off)%Z eqn:E2; [apply Z.leb_le in E2; lia|].
        apply firstn_all2. rewrite length_skipn. unfold len in *. lia. }
      rewrite Ec. split; [reflexivity|]. split.
      * unfold len in *. rewrite length_skipn. lia.
      * apply Z.ltb_irrefl.
  - destruct (0 <? off)%Z eqn:E; [apply Z.ltb_lt in E; lia|].
    repeat split.
Qed.

(** The six-letter text read at offset -2 with room for ten characters. *)
Lemma paginate_negative_offset_witness :
  (-2 < 0)%Z
  /\ content (paginate (lit "abcdef") (Some (ofZ (-2))) (Some (ofZ 10)))
     = skipn 4 (lit "abcdef").
Proof.
  split; [lia|].
  destruct (@paginate_negative_offset (lit "abcdef") (-2)%Z (Some 10%Z))
    as [_ [_ H]]; [lia|].
  apply H; vm_compute; discriminate.
Defined.

(** The offset [-2] is not rejected and not clamped to 0: the content is
    the last two characters of the text, where offset 0 gives the text
    from its start; without [maxLength] the same offset gives the whole
    text.  A fractional offset wraps from its integer part. *)
Example paginate_negative_offset_wraps :
  paginate (lit "abcdef") (Some (ofZ (-2))) (Some (ofZ 10))
  = mkResponse (lit "ef") 6 false (ofZ (-2)) 2
  /\ paginate (lit "abcdef") (Some (ofZ 0)) (Some (ofZ 10))
     = mkResponse (lit "abcdef") 6 false (ofZ 0) 6
  /\ paginate (lit "abcdef") (Some (ofZ (-2))) None
     = mkResponse (lit "abcdef") 6 false (ofZ (-2)) 6
  /\ paginate (lit "abcdef") (Some (Fin (-3 # 2))) (Some (ofZ 10))
     = mkResponse (lit "f") 6 false (Fin (-3 # 2)) 1.
Proof. repeat split. Qed.



End PaginatorClaims.

(** ** Presets *)

Section PresetClaims.

Import HtmlSource.

Lemma applyPreset_unlisted (params : Params) (p : jsstring) :
  preset params = Some p -> ~ In p presetNames -> applyPreset params = params.
Proof.
  intros Hp Hn. unfold applyPreset. rewrite Hp.
  destruct (negb (truthy p)); [reflexivity|].
  assert (E : forall q, In q presetNames -> str_eqb p q = false).
  { intros q Hq. apply str_eqb_neq. intros ->. exact (Hn Hq). }
  rewrite (E (lit "minimal")), (E (lit "structure")), (E (lit "content")),
    (E (lit "full")) by (simpl; tauto).
  reflexivity.
Qed.

(** An absent preset and the preset [full] parse, with numbers that
    do, and change nothing. *)
Lemma preset_full_passes (params : Params) :
  preset params = None \/ preset params = Some (lit "full") ->
  numberSchema (maxLength params) = true ->
  numberSchema (offset params) = true ->
  inputSchema params = Some params /\ applyPreset params = params.
Proof.
  intros [E|E] Hm Ho; unfold inputSchema, applyPreset; rewrite E, Hm, Ho;
    split; reflexivity.
Qed.

(** C9 (as amended).  The schema of the tool admits the four preset names
    only: arguments whose preset is any other string do not parse, so the
    call is rejected and [handle] does not run.  The switch of [handle]
    would leave such arguments unchanged, as it does for [full]. *)
Theorem unknown_preset (params : Params) (p : jsstring) :
  preset params = Some p -> ~ In p presetNames ->
  inputSchema params = None /\ applyPreset params = params.
Proof.
  intros Hp Hn. split; [|exact (applyPreset_unlisted params Hp Hn)].
  unfold inputSchema, presetSchema. rewrite Hp.
  destruct (existsb (str_eqb p) presetNames) eqn:E; [|reflexivity].
  apply existsb_exists in E. destruct E as [q [Hq Heq]].
  apply str_eqb_eq in Heq. subst q. contradiction.
Qed.

(** The preset [bogus]. *)
Lemma unknown_preset_witness :
  inputSchema
    (mkParams None None None None None None None None None (Some (lit "bogus")))
  = None
  /\ applyPreset
       (mkParams None None None None None None None None None (Some (lit "bogus")))
     = mkParams None None None None None None None None None (Some (lit "bogus")).
Proof.
  apply (@unknown_preset
           (mkParams None None None None None None None None None
              (Some (lit "bogus")))
           (lit "bogus")).
  - reflexivity.
  - simpl. intros [H|[H|[H|[H|[]]]]]; discriminate H.
Defined.

(** C9, as stated, fails: a call whose preset is [bogus] does not pass
    the input schema. *)
Lemma unknown_preset_fails_schema :
  presetSchema (Some (lit "bogus")) = false
  /\ inputSchema
       (mkParams (Some true) None None None None (Some (ofZ 50)) None None None
          (Some (lit "bogus")))
     = None.
Proof. split; reflexivity. Qed.

End PresetClaims.

(** ** The request recorder *)

Section Recorder.

Import Network.

(** The listener keeps the last document request it has seen. *)
Lemma captureRequest_last (pre post : list Request) (r : Request)
    (init : RequestInfo) :
  str_eqb (resourceType r) (lit "document") = true ->
  Forall (fun q => str_eqb (resourceType q) (lit "document") = false) post ->
  fold_left captureRequest (pre ++ r :: post) init
  = Some (mkSnapshot (req_url r) (req_method r) (req_headers r)
            (orNull (req_postData r))).
Proof.
  intros Hr Hpost. rewrite fold_left_app. cbn [fold_left].
  unfold captureRequest at 2. rewrite Hr.
  induction Hpost as [|q post Hq _ IH]; [reflexivity|].
  cbn [fold_left]. unfold captureRequest at 2. rewrite Hq. exact IH.
Qed.

(** C3, on the code: a reload whose request stream holds the document
    request of the page, an image and the document request of a frame
    leaves the frame's request in [requestInfo], not the first one. *)
Lemma reload_keeps_last_document :
  recordRequest true (lit "http://example.com/")
    [ mkRequest (lit "document") (lit "http://example.com/") (lit "POST")
        [(lit "accept", lit "text/html")] (Some (lit "a=1"));
      mkRequest (lit "image") (lit "http://example.com/logo.png") (lit "GET")
        [] None;
      mkRequest (lit "document") (lit "http://ads.test/frame") (lit "GET")
        [] None ]
  = Some (mkSnapshot (lit "http://ads.test/frame") (lit "GET") [] None).
Proof. reflexivity. Qed.

End Recorder.

(** ** The cookie filter *)

Section CookieFilter.

Import Network.

Lemma startsWith_dot (d : jsstring) :
  startsWith d (lit ".") = true <-> exists r, d = lit "." ++ r.
Proof.
  change (lit ".") with [46%N].
  destruct d as [|c r]; cbn [startsWith app].
  - split; [discriminate | intros [r' E]; discriminate E].
  - destruct r; rewrite andb_true_r, N.eqb_eq; (split;
      [intros ->; eexists; reflexivity | intros [r' E]; inversion E; reflexivity]).
Qed.

(** The dotted form always starts with a dot; what follows the dot is the
    domain without its leading dot. *)
Lemma cookieDomain_dotted (c : Cookie) :
  cookieDomain c = lit "." ++ tl (cookieDomain c)
  /\ (domain c = tl (cookieDomain c) \/ domain c = cookieDomain c).
Proof.
  unfold cookieDomain.
  destruct (startsWith (domain c) (lit ".")) eqn:E.
  - apply startsWith_dot in E. destruct E as [r E]. rewrite E. simpl. auto.
  - simpl. auto.
Qed.

Lemma cookieMatches_spec (hostname : jsstring) (c : Cookie) :
  cookieMatches hostname c = true
  <-> (exists q, hostname = q ++ tl (cookieDomain c)) \/ hostname = domain c.
Proof.
  unfold cookieMatches.
  rewrite orb_true_iff, slice_1, endsWith_spec, str_eqb_eq. reflexivity.
Qed.

(** What the filter does by its design: it keeps the jar order and
    decides cookie by cookie.  A cookie is kept when the hostname is its
    raw domain, or ends with its domain in leading-dot form, or is that
    dotted form without the dot; and for every cookie that is kept, the
    hostname ends with the cookie's domain taken without its leading
    dot. *)
Theorem cookie_filter (hostname : jsstring) (jar1 jar2 : list Cookie)
    (c : Cookie) :
  cookiesForCurrentPage hostname (jar1 ++ c :: jar2)
  = cookiesForCurrentPage hostname jar1
    ++ (if cookieMatches hostname c then [c] else [])
    ++ cookiesForCurrentPage hostname jar2
  /\ (hostname = domain c \/ endsWith hostname (cookieDomain c) = true
      \/ lit "." ++ hostname = cookieDomain c ->
      cookieMatches hostname c = true)
  /\ (cookieMatches hostname c = true ->
      exists pre rest,
        cookieDomain c = lit "." ++ rest /\ hostname = pre ++ rest).
Proof.
  destruct (cookieDomain_dotted c) as [Hd Hraw].
  split; [|split].
  - unfold cookiesForCurrentPage. rewrite filter_app. cbn [filter].
    destruct (cookieMatches hostname c); reflexivity.
  - rewrite cookieMatches_spec. intros [E|[E|E]].
    + right; exact E.
    + apply endsWith_spec in E. destruct E as [q E]. left.
      exists (q ++ lit "."). rewrite <- app_assoc, <- Hd. exact E.
    + left. exists []. rewrite <- E. reflexivity.
  - rewrite cookieMatches_spec. intros [[q E]|E].
    + exists q, (tl (cookieDomain c)). auto.
    + destruct Hraw as [H|H].
      * exists [], (tl (cookieDomain c)). split; [exact Hd|]. simpl. congruence.
      * exists (lit "."), (tl (cookieDomain c)). split; [exact Hd|]. congruence.
Qed.

(** C2.  The filter builds the dotted domain and then tests the hostname
    against it with the dot sliced off again, so no label boundary is
    left: whatever stands before them, a hostname that ends with the
    characters of a cookie's domain keeps the cookie.  The cookie of
    domain [example.com] is kept for the unrelated host
    [badexample.com], which is not the raw domain and does not end with
    the dotted domain [.example.com]. *)
Theorem cookie_filter_unrelated_host :
  (forall (p : jsstring) (c : Cookie),
     cookieMatches (p ++ tl (cookieDomain c)) c = true)
  /\ cookieDomain
       (mkCookie (lit "sid") (lit "1") (lit "example.com") (lit "/") false false)
     = lit ".example.com"
  /\ cookiesForCurrentPage (lit "badexample.com")
       [mkCookie (lit "sid") (lit "1") (lit "example.com") (lit "/") false false]
     = [mkCookie (lit "sid") (lit "1") (lit "example.com") (lit "/") false false]
  /\ str_eqb (lit "badexample.com") (lit "example.com") = false
  /\ endsWith (lit "badexample.com") (lit ".example.com") = false.
Proof.
  split; [|repeat split].
  intros p c. apply cookieMatches_spec. left. exists p. reflexivity.
Qed.

(** The cases the specification lists. *)
Example cookie_filter_cases :
  map (fun c => cookieMatches (lit "a.example.com") c)
    [mkCookie [] [] (lit ".example.com") [] false false;
     mkCookie [] [] (lit "example.com") [] false false;
     mkCookie [] [] (lit "other.org") [] false false]
  = [true; true; false]
  /\ cookieMatches (lit "example.com")
       (mkCookie [] [] (lit "other.org") [] false false) = false.
Proof. split; reflexivity. Qed.

End CookieFilter.

(** ** The curl command *)

Section Curl.

Import Network.

Context `{R : Runtime}.

Lemma fold_pushHeader (h : Headers) (init : list jsstring) :
  fold_left pushHeader h init = init ++ flat_map headerArgs h.
Proof.
  revert init; induction h as [|[k v] h IH]; intros init; cbn [fold_left flat_map].
  - symmetry; apply app_nil_r.
  - rewrite IH. unfold pushHeader, headerArgs. cbn [fst snd].
    destruct (negb (skipped k)).
    + rewrite <- app_assoc. reflexivity.
    + reflexivity.
Qed.

(** The parts of the command: what comes before the cookies, the cookie
    argument, the body argument. *)
Lemma generateCurlParts_shape (info : Response) :
  generateCurlParts info
  = d <- dataArgs (postData info) ;;
    Ok (baseArgs info ++ cookieArgs (cookies info) ++ d).
Proof.
  unfold generateCurlParts, baseArgs, dataArgs, cookieArgs.
  rewrite fold_pushHeader.
  set (b := ([lit "curl"] ++ _) ++ _ ++ _).
  assert (Eb : (if negb (str_eqb (method info) (lit "GET"))
                then [lit "curl"] ++ [lit "-X"; method info]
                else [lit "curl"]) ++ [quoted (url info)]
               ++ flat_map headerArgs (headers info) = b).
  { subst b. destruct (negb (str_eqb (method info) (lit "GET"))); reflexivity. }
  rewrite app_assoc in Eb. rewrite Eb. clear Eb.
  set (c := match cookies info with [] => b | _ :: _ => _ end).
  assert (Ec : c = b ++ match cookies info with
                        | [] => []
                        | _ :: _ =>
                            [lit "-H";
                             quoted (lit "Cookie: " ++ cookieString (cookies info))]
                        end).
  { subst c. destruct (cookies info); [symmetry; apply app_nil_r | reflexivity]. }
  rewrite Ec. clear Ec c.
  destruct (postData info) as [pd|]; cbn [bind].
  - destruct (params pd) as [|first rest]; [reflexivity|].
    destruct (str_eqb (p_name first) (lit "raw")); cbn [bind].
    + rewrite <- app_assoc. reflexivity.
    + destruct (mapM _ (first :: rest)); cbn [bind];
        [rewrite <- app_assoc|]; reflexivity.
  - rewrite app_nil_r. reflexivity.
Qed.

Lemma lower_Cookie : toLowerCase (lit "Cookie") = lit "cookie".
Proof. rewrite toLowerCase_ascii; [reflexivity|]. repeat constructor. Qed.

Lemma lower_content_type :
  toLowerCase (lit "content-type") = lit "content-type".
Proof. rewrite toLowerCase_ascii; [reflexivity|]. repeat constructor. Qed.

Lemma isCookieHeader_skipped (e : jsstring * jsstring) :
  isCookieHeader e = true -> headerArgs e = [].
Proof.
  unfold isCookieHeader, headerArgs, skipped. intros E.
  cbn [existsb]. rewrite E. reflexivity.
Qed.

Lemma headerArgs_setHeader_Cookie (h : Headers) (v : jsstring) :
  flat_map headerArgs (setHeader h (lit "Cookie") v) = flat_map headerArgs h.
Proof.
  assert (C : forall w, headerArgs (lit "Cookie", w) = []).
  { intros w. apply isCookieHeader_skipped. unfold isCookieHeader. cbn [fst].
    rewrite lower_Cookie. reflexivity. }
  induction h as [|[k w] h IH]; cbn [setHeader flat_map].
  - rewrite C. reflexivity.
  - destruct (str_eqb k (lit "Cookie")) eqn:E; cbn [flat_map].
    + apply str_eqb_eq in E. subst k. rewrite !C. reflexivity.
    + rewrite IH. reflexivity.
Qed.

Lemma getHeader_setHeader_other (h : Headers) (key key' v : jsstring) :
  str_eqb key key' = false ->
  getHeader (setHeader h key v) key' = getHeader h key'.
Proof.
  intros Hk. induction h as [|[k w] h IH]; cbn [setHeader getHeader].
  - rewrite Hk. reflexivity.
  - destruct (str_eqb k key) eqn:E; cbn [getHeader].
    + apply str_eqb_eq in E. subst k. rewrite Hk. reflexivity.
    + rewrite IH. reflexivity.
Qed.

Lemma headerArgs_filter (h : Headers) :
  flat_map headerArgs (filter (fun e => negb (isCookieHeader e)) h)
  = flat_map headerArgs h.
Proof.
  induction h as [|e h IH]; [reflexivity|]. cbn [filter flat_map].
  destruct (isCookieHeader e) eqn:E; cbn [negb flat_map].
  - rewrite (isCookieHeader_skipped e E). exact IH.
  - rewrite IH. reflexivity.
Qed.

Lemma getHeader_filter_content_type (h : Headers) :
  getHeader (filter (fun e => negb (isCookieHeader e)) h) (lit "content-type")
  = getHeader h (lit "content-type").
Proof.
  induction h as [|[k w] h IH]; [reflexivity|]. cbn [filter].
  destruct (isCookieHeader (k, w)) eqn:E; cbn [negb getHeader].
  - destruct (str_eqb k (lit "content-type")) eqn:Ek; [|exact IH].
    apply str_eqb_eq in Ek. subst k.
    unfold isCookieHeader in E. cbn [fst] in E.
    rewrite lower_content_type in E. discriminate E.
  - rewrite IH. reflexivity.
Qed.

Lemma headerArgs_addCookieHeader (h : Headers) (matched : list Cookie) :
  flat_map headerArgs (addCookieHeader h matched) = flat_map headerArgs h.
Proof.
  unfold addCookieHeader. destruct matched; [reflexivity|].
  destruct (negb _); [apply headerArgs_setHeader_Cookie | reflexivity].
Qed.

Lemma content_type_addCookieHeader (h : Headers) (matched : list Cookie) :
  getHeader (addCookieHeader h matched) (lit "content-type")
  = getHeader h (lit "content-type").
Proof.
  unfold addCookieHeader. destruct matched; [reflexivity|].
  destruct (negb _); [|reflexivity].
  apply getHeader_setHeader_other. reflexivity.
Qed.

Lemma addPostData_content_type (ri : RequestInfo) (h h' : Headers) :
  getHeader h (lit "content-type") = getHeader h' (lit "content-type") ->
  addPostData ri h = addPostData ri h'.
Proof. intros E. unfold addPostData. rewrite E. reflexivity. Qed.

(** The matched cookies change nothing of the response but its [cookies]
    and a [Cookie] header that the command does not show. *)
Lemma buildResponse_cookies (ri : RequestInfo) (pageUrl : jsstring)
    (matched : list Cookie) :
  baseArgs (buildResponse ri pageUrl matched)
  = baseArgs (buildResponse ri pageUrl [])
  /\ postData (buildResponse ri pageUrl matched)
     = postData (buildResponse ri pageUrl [])
  /\ cookies (buildResponse ri pageUrl matched) = matched.
Proof.
  unfold buildResponse, baseArgs. cbn [url method headers postData cookies].
  rewrite !headerArgs_addCookieHeader. split; [reflexivity|].
  split; [|reflexivity].
  apply addPostData_content_type. rewrite !content_type_addCookieHeader.
  reflexivity.
Qed.

Lemma buildResponse_withoutCookieHeader (ri : RequestInfo)
    (pageUrl : jsstring) (matched : list Cookie) :
  baseArgs (buildResponse (withoutCookieHeader ri) pageUrl matched)
  = baseArgs (buildResponse ri pageUrl matched)
  /\ postData (buildResponse (withoutCookieHeader ri) pageUrl matched)
     = postData (buildResponse ri pageUrl matched).
Proof.
  destruct ri as [s|]; [|split; reflexivity].
  unfold buildResponse, baseArgs, withoutCookieHeader.
  cbn [url method headers postData cookies ri_url ri_method ri_headers].
  rewrite !headerArgs_addCookieHeader, headerArgs_filter.
  split; [reflexivity|].
  unfold addPostData. cbn [ri_postData].
  rewrite !content_type_addCookieHeader, getHeader_filter_content_type.
  reflexivity.
Qed.

End Curl.

Section CurlClaims.

Import Network.

(** C4 (as amended).  Whenever a command is produced, it is the command
    of the same capture without matched cookies, with the one argument
    pair [-H 'Cookie: n1=v1; n2=v2; ...'] put in before the body argument
    when the matched cookies are not empty, and with nothing put in when
    they are empty, whether or not the captured headers hold a [cookie]
    header; and a captured [cookie] header never shows, the command is
    the one of the capture without it. *)
Theorem curl_cookie_argument `{R : Runtime} (requestInfo : RequestInfo)
    (pageUrl : jsstring) (matched : list Cookie) (parts : list jsstring) :
  generateCurlParts (buildResponse requestInfo pageUrl matched) = Ok parts ->
  exists pre post,
    parts
    = pre
      ++ match matched with
         | [] => []
         | _ :: _ => [lit "-H"; quoted (lit "Cookie: " ++ cookieString matched)]
         end
      ++ post
    /\ generateCurlParts (buildResponse requestInfo pageUrl []) = Ok (pre ++ post)
    /\ dataArgs (postData (buildResponse requestInfo pageUrl matched)) = Ok post
    /\ generateCurlParts
         (buildResponse (withoutCookieHeader requestInfo) pageUrl matched)
       = Ok parts.
Proof.
  intros H.
  destruct (buildResponse_cookies requestInfo pageUrl matched) as [Hb [Hp Hc]].
  destruct (buildResponse_withoutCookieHeader requestInfo pageUrl matched)
    as [Hb' Hp'].
  rewrite generateCurlParts_shape, Hc in H.
  destruct (dataArgs (postData (buildResponse requestInfo pageUrl matched)))
    as [d|e] eqn:Ed; cbn [bind] in H; [|discriminate H].
  assert (Hparts : parts = baseArgs (buildResponse requestInfo pageUrl matched)
                           ++ cookieArgs matched ++ d) by congruence.
  clear H.
  exists (baseArgs (buildResponse requestInfo pageUrl matched)), d.
  split; [exact Hparts|]. split; [|split; [reflexivity|]].
  - rewrite generateCurlParts_shape, <- Hp, Ed, <- Hb. reflexivity.
  - rewrite generateCurlParts_shape, Hp', Ed, Hb', Hparts. reflexivity.
Qed.

(** A GET capture with one header and two matched cookies. *)
Lemma curl_cookie_argument_witness :
  exists pre post,
    [lit "curl"; lit "'http://example.com/'"; lit "-H"; lit "'accept: */*'";
     lit "-H"; lit "'Cookie: sid=1; theme=dark'"]
    = pre ++ [lit "-H"; lit "'Cookie: sid=1; theme=dark'"] ++ post
    /\ @generateCurlParts asciiRuntime
         (@buildResponse asciiRuntime
            (Some (mkSnapshot (lit "http://example.com/") (lit "GET")
                     [(lit "accept", lit "*/*")] None))
            (lit "http://example.com/") [])
       = Ok (pre ++ post)
    /\ dataArgs None = Ok post
    /\ @generateCurlParts asciiRuntime
         (@buildResponse asciiRuntime
            (Some (mkSnapshot (lit "http://example.com/") (lit "GET")
                     [(lit "accept", lit "*/*")] None))
            (lit "http://example.com/")
            [mkCookie (lit "sid") (lit "1") (lit "example.com") (lit "/")
               true false;
             mkCookie (lit "theme") (lit "dark") (lit ".example.com") (lit "/")
               false false])
       = Ok [lit "curl"; lit "'http://example.com/'"; lit "-H";
             lit "'accept: */*'"; lit "-H"; lit "'Cookie: sid=1; theme=dark'"].
Proof.
  exact (@curl_cookie_argument asciiRuntime
           (Some (mkSnapshot (lit "http://example.com/") (lit "GET")
                    [(lit "accept", lit "*/*")] None))
           (lit "http://example.com/")
           [mkCookie (lit "sid") (lit "1") (lit "example.com") (lit "/")
              true false;
            mkCookie (lit "theme") (lit "dark") (lit ".example.com") (lit "/")
              false false]
           [lit "curl"; lit "'http://example.com/'"; lit "-H";
            lit "'accept: */*'"; lit "-H"; lit "'Cookie: sid=1; theme=dark'"]
           eq_refl).
Defined.

(** C4, as stated, fails: the captured headers hold a [cookie] header and
    the command still has the aggregated [Cookie] argument, made from the
    matched cookies. *)
Lemma curl_cookie_despite_captured_header :
  truthyOpt
    (getHeader [(lit "cookie", lit "old=0"); (lit "accept", lit "*/*")]
       (lit "cookie")) = true
  /\ @generateCurlCommand asciiRuntime
       (@buildResponse asciiRuntime
          (Some (mkSnapshot (lit "http://example.com/") (lit "GET")
                   [(lit "cookie", lit "old=0"); (lit "accept", lit "*/*")]
                   None))
          (lit "http://example.com/")
          [mkCookie (lit "sid") (lit "1") (lit "example.com") (lit "/")
             true false])
     = Ok (lit "curl 'http://example.com/' -H 'accept: */*' -H 'Cookie: sid=1'").
Proof. split; reflexivity. Qed.

(** Whatever follows it, a first field named [raw] makes the body
    argument that field's value alone. *)
Lemma dataArgs_first_raw (ct v : jsstring) (rest : list FormParam) :
  dataArgs (Some (mkPostData ct (mkParam (lit "raw") v :: rest)))
  = Ok [lit "-d"; quoted v].
Proof. reflexivity. Qed.

(** C5, on the code: the form body [raw=1&b=2] parses to two fields, and
    the command carries [-d '1'] where the encoded pairs of both fields,
    [raw=1&b=2], are expected. *)
Lemma curl_first_field_named_raw :
  @parsePostData asciiRuntime (lit "raw=1&b=2")
    (Some (lit "application/x-www-form-urlencoded"))
  = [mkParam (lit "raw") (lit "1"); mkParam (lit "b") (lit "2")]
  /\ @generateCurlCommand asciiRuntime
       (@buildResponse asciiRuntime
          (Some (mkSnapshot (lit "http://example.com/login") (lit "POST")
                   [(lit "content-type",
                     lit "application/x-www-form-urlencoded")]
                   (Some (lit "raw=1&b=2"))))
          (lit "http://example.com/login") [])
     = Ok (lit "curl -X POST 'http://example.com/login' -H 'content-type: application/x-www-form-urlencoded' -d '1'")
  /\ @generateCurlCommand asciiRuntime
       (@buildResponse asciiRuntime
          (Some (mkSnapshot (lit "http://example.com/login") (lit "POST")
                   [(lit "content-type",
                     lit "application/x-www-form-urlencoded")]
                   (Some (lit "b=2&raw=1"))))
          (lit "http://example.com/login") [])
     = Ok (lit "curl -X POST 'http://example.com/login' -H 'content-type: application/x-www-form-urlencoded' -d 'b=2&raw=1'").
Proof. repeat split. Qed.

(** C10, on the code: the body [&] is present, has no content type and
    parses to no field; [generateCurlCommand] then reads [params[0].name]
    of an empty array and throws a [TypeError] instead of a command. *)
Lemma curl_empty_params_throws `{R : Runtime} (u m pageUrl : jsstring) :
  parsePostData (lit "&") None = []
  /\ generateCurlCommand
       (buildResponse (Some (mkSnapshot u m [] (Some (lit "&")))) pageUrl [])
     = Throw TypeError.
Proof.
  split; [reflexivity|].
  unfold generateCurlCommand. rewrite generateCurlParts_shape. reflexivity.
Qed.

End CurlClaims.

(** ** The compression stage *)

Section Compression.

Import HtmlSource.

(** The two replacements of [compressStage]. *)
Local Abbreviation tighten := (replaceAll match_gt_ws_lt (lit "><") 0).
Local Abbreviation collapse := (replaceAll match_ws (lit " ") 0).

Lemma replaceAll_skip m rep (k : nat) (s : jsstring) :
  replaceAll m rep k s = replaceAll m rep 0 (skipn k s).
Proof.
  revert k; induction s as [|c r IH]; intros [|k]; try reflexivity.
  cbn [replaceAll skipn]. apply IH.
Qed.

Lemma skipn_wsRun (r : jsstring) : skipn (wsRun r) r = trimStart r.
Proof.
  induction r as [|c r IH]; [reflexivity|]. cbn [wsRun trimStart].
  destruct (isWhiteSpace c); [exact IH | reflexivity].
Qed.

Lemma ws_not_gt (c : char16) : isWhiteSpace c = true -> (c =? 62)%N = false.
Proof.
  intros H. destruct (c =? 62)%N eqn:E; [|reflexivity].
  apply N.eqb_eq in E. subst c. discriminate H.
Qed.

Lemma headWs_wsRun (r : jsstring) :
  wsRun r = O <-> headWs r = false.
Proof.
  destruct r as [|c r]; [tauto|]. cbn [wsRun headWs].
  destruct (isWhiteSpace c); split; congruence.
Qed.

Lemma trimStart_id (s : jsstring) : headWs s = false -> trimStart s = s.
Proof. destruct s as [|c r]; [reflexivity|]. simpl. intros ->. reflexivity. Qed.

Lemma headWs_trimStart (s : jsstring) : headWs (trimStart s) = false.
Proof.
  induction s as [|c r IH]; [reflexivity|]. cbn [trimStart].
  destruct (isWhiteSpace c) eqn:E; [exact IH | exact E].
Qed.

Lemma length_trimStart (s : jsstring) : (length (trimStart s) <= length s)%nat.
Proof.
  induction s as [|c r IH]; [reflexivity|]. cbn [trimStart].
  destruct (isWhiteSpace c); simpl; lia.
Qed.

(** [>\s+<] at the start of a text. *)
Lemma match_gt_ws_lt_cons (c : char16) (r : jsstring) :
  match_gt_ws_lt (c :: r)
  = if (c =? 62)%N && startsGap r then Some (S (wsRun r) + 1)%nat else None.
Proof.
  unfold match_gt_ws_lt, startsGap. rewrite skipn_wsRun.
  destruct (c =? 62)%N; [|reflexivity]. cbn [andb].
  destruct (wsRun r) eqn:E.
  - apply headWs_wsRun in E. rewrite E. reflexivity.
  - assert (H : headWs r = true).
    { destruct (headWs r) eqn:Hh; [reflexivity|].
      apply headWs_wsRun in Hh. congruence. }
    rewrite H. cbn [andb].
    destruct (trimStart r) as [|d q]; [reflexivity|].
    destruct (d =? 60)%N; reflexivity.
Qed.

(** *** The equations of the two replacements *)

Lemma collapse_ws (c : char16) (r : jsstring) :
  isWhiteSpace c = true -> collapse (c :: r) = 32%N :: collapse (trimStart r).
Proof.
  intros H. cbn [replaceAll]. unfold match_ws. cbn [wsRun]. rewrite H.
  rewrite replaceAll_skip, skipn_wsRun. reflexivity.
Qed.

Lemma collapse_other (c : char16) (r : jsstring) :
  isWhiteSpace c = false -> collapse (c :: r) = c :: collapse r.
Proof.
  intros H. cbn [replaceAll]. unfold match_ws. cbn [wsRun]. rewrite H.
  reflexivity.
Qed.

Lemma tighten_gap (c : char16) (r : jsstring) :
  (c =? 62)%N && startsGap r = true ->
  tighten (c :: r) = 62%N :: 60%N :: tighten (tl (trimStart r)).
Proof.
  intros H. cbn [replaceAll]. rewrite match_gt_ws_lt_cons, H.
  cbn [Nat.add]. rewrite replaceAll_skip.
  replace (wsRun r + 1)%nat with (1 + wsRun r)%nat by lia.
  rewrite <- skipn_skipn, skipn_wsRun.
  destruct (trimStart r); reflexivity.
Qed.

Lemma tighten_other (c : char16) (r : jsstring) :
  (c =? 62)%N && startsGap r = false -> tighten (c :: r) = c :: tighten r.
Proof.
  intros H. cbn [replaceAll]. rewrite match_gt_ws_lt_cons, H. reflexivity.
Qed.

Lemma tighten_head (c : char16) (r : jsstring) :
  exists t, tighten (c :: r) = c :: t.
Proof.
  destruct ((c =? 62)%N && startsGap r) eqn:E.
  - rewrite (tighten_gap _ _ E). apply andb_true_iff in E.
    destruct E as [E _]. apply N.eqb_eq in E. subst c. eauto.
  - rewrite (tighten_other _ _ E). eauto.
Qed.

(** *** What the replacements keep of the start of a text *)

Lemma startsGap_tighten (r : jsstring) : startsGap (tighten r) = startsGap r.
Proof.
  assert (Hh : forall s, headWs (tighten s) = headWs s).
  { intros [|c s]; [reflexivity|].
    destruct (tighten_head c s) as [t ->]. reflexivity. }
  assert (Ht : forall s, hd_error (trimStart (tighten s)) = hd_error (trimStart s)).
  { induction s as [|c s IH]; [reflexivity|].
    destruct (isWhiteSpace c) eqn:E.
    - rewrite tighten_other by (rewrite (ws_not_gt _ E); reflexivity).
      cbn [trimStart]. rewrite E. exact IH.
    - destruct (tighten_head c s) as [t ->]. cbn [trimStart]. rewrite E.
      reflexivity. }
  unfold startsGap. rewrite Hh. specialize (Ht r).
  destruct (trimStart (tighten r)), (trimStart r); cbn [hd_error] in Ht;
    congruence.
Qed.

Lemma collapse_head (u : jsstring) :
  headWs u = false ->
  hd_error (collapse u) = hd_error u /\ headWs (collapse u) = false.
Proof.
  destruct u as [|d u]; [split; reflexivity|]. cbn [headWs]. intros E.
  rewrite (collapse_other _ _ E). cbn [hd_error headWs]. auto.
Qed.

Lemma startsGap_collapse (r : jsstring) : startsGap (collapse r) = startsGap r.
Proof.
  destruct r as [|c r]; [reflexivity|].
  destruct (isWhiteSpace c) eqn:E.
  - rewrite (collapse_ws _ _ E). unfold startsGap. cbn [headWs trimStart].
    rewrite E. change (isWhiteSpace 32%N) with true. cbn [andb].
    destruct (collapse_head _ (headWs_trimStart r)) as [H1 H2].
    rewrite (trimStart_id _ H2).
    destruct (collapse (trimStart r)), (trimStart r); cbn [hd_error] in H1;
      congruence.
  - rewrite (collapse_other _ _ E). unfold startsGap. cbn [headWs].
    rewrite E. reflexivity.
Qed.

Lemma trimStart_app (p w : jsstring) (d : char16) (q : jsstring) :
  trimStart p = d :: q -> trimStart (p ++ w) = d :: q ++ w.
Proof.
  induction p as [|c p IH]; [discriminate|]. cbn [trimStart app].
  destruct (isWhiteSpace c); [exact IH|].
  intros H. inversion H. reflexivity.
Qed.

Lemma startsGap_app (p w : jsstring) :
  startsGap p = true -> startsGap (p ++ w) = true.
Proof.
  unfold startsGap. intros H. apply andb_true_iff in H. destruct H as [H1 H2].
  destruct p as [|c p]; [discriminate|]. cbn [headWs app] in *. rewrite H1.
  destruct (trimStart (c :: p)) as [|d q] eqn:E; [discriminate|].
  change (c :: p ++ w) with ((c :: p) ++ w).
  rewrite (trimStart_app _ w E). exact H2.
Qed.

(** *** [trimEnd] *)

Lemma trimEnd_prefix (s : jsstring) : exists w, s = trimEnd s ++ w.
Proof.
  induction s as [|c r [w IH]]; [exists []; reflexivity|]. cbn [trimEnd].
  destruct (trimEnd r) as [|x y] eqn:E.
  - destruct (isWhiteSpace c).
    + exists (c :: r). reflexivity.
    + exists r. reflexivity.
  - exists w. cbn [app]. f_equal. exact IH.
Qed.

Lemma trimEnd_idem (s : jsstring) : trimEnd (trimEnd s) = trimEnd s.
Proof.
  induction s as [|c r IH]; [reflexivity|]. cbn [trimEnd].
  destruct (trimEnd r) as [|x y] eqn:E.
  - destruct (isWhiteSpace c) eqn:Ec; [reflexivity|].
    cbn [trimEnd]. rewrite Ec. reflexivity.
  - cbn [trimEnd] in *. rewrite IH. reflexivity.
Qed.

Lemma headWs_trimEnd (s : jsstring) :
  headWs s = false -> headWs (trimEnd s) = false.
Proof.
  destruct s as [|c r]; [reflexivity|]. cbn [headWs trimEnd]. intros E.
  destruct (trimEnd r); [rewrite E|]; cbn [headWs]; auto.
Qed.

Lemma trim_idem (s : jsstring) : trim (trim s) = trim s.
Proof.
  unfold trim.
  rewrite (trimStart_id (trimEnd (trimStart s))).
  - apply trimEnd_idem.
  - apply headWs_trimEnd, headWs_trimStart.
Qed.

(** *** No match of [>\s+<] is left *)

Lemma hasGap_tighten (s : jsstring) : hasGap (tighten s) = false.
Proof.
  remember (length s) as n eqn:Hn.
  assert (Hle : (length s <= n)%nat) by lia. clear Hn.
  revert s Hle; induction n as [|n IH]; intros [|c r] Hle;
    try reflexivity; [simpl in Hle; lia|].
  simpl in Hle.
  destruct ((c =? 62)%N && startsGap r) eqn:E.
  - rewrite (tighten_gap _ _ E). cbn [hasGap].
    rewrite IH.
    + reflexivity.
    + pose proof (length_trimStart r).
      destruct (trimStart r); simpl in *; lia.
  - rewrite (tighten_other _ _ E). cbn [hasGap].
    rewrite startsGap_tighten, E, IH by lia. reflexivity.
Qed.

Lemma tighten_fixed (t : jsstring) : hasGap t = false -> tighten t = t.
Proof.
  induction t as [|c r IH]; [reflexivity|]. cbn [hasGap].
  intros H. apply orb_false_iff in H. destruct H as [H1 H2].
  rewrite (tighten_other _ _ H1), (IH H2). reflexivity.
Qed.

Lemma hasGap_trimStart (s : jsstring) : hasGap (trimStart s) = hasGap s.
Proof.
  induction s as [|c r IH]; [reflexivity|]. cbn [trimStart].
  destruct (isWhiteSpace c) eqn:E; [|reflexivity].
  cbn [hasGap]. rewrite (ws_not_gt _ E). exact IH.
Qed.

Lemma hasGap_collapse (s : jsstring) : hasGap (collapse s) = hasGap s.
Proof.
  remember (length s) as n eqn:Hn.
  assert (Hle : (length s <= n)%nat) by lia. clear Hn.
  revert s Hle; induction n as [|n IH]; intros [|c r] Hle;
    try reflexivity; [simpl in Hle; lia|].
  simpl in Hle.
  destruct (isWhiteSpace c) eqn:E.
  - rewrite (collapse_ws _ _ E). cbn [hasGap].
    rewrite (ws_not_gt _ E). cbn [andb orb N.eqb Pos.eqb].
    rewrite IH by (pose proof (length_trimStart r); lia).
    apply hasGap_trimStart.
  - rewrite (collapse_other _ _ E). cbn [hasGap].
    rewrite startsGap_collapse, IH by lia. reflexivity.
Qed.

Lemma hasGap_app_l (p w : jsstring) : hasGap (p ++ w) = false -> hasGap p = false.
Proof.
  induction p as [|c p IH]; [reflexivity|]. cbn [app hasGap].
  intros H. apply orb_false_iff in H. destruct H as [H1 H2].
  rewrite (IH H2), orb_false_r.
  destruct (c =? 62)%N; [|reflexivity]. cbn [andb] in *.
  destruct (startsGap p) eqn:E; [|reflexivity].
  rewrite (startsGap_app _ w E) in H1. discriminate H1.
Qed.

Lemma hasGap_trimEnd (s : jsstring) : hasGap s = false -> hasGap (trimEnd s) = false.
Proof.
  destruct (trimEnd_prefix s) as [w E]. intros H. rewrite E in H.
  exact (hasGap_app_l _ _ H).
Qed.

(** *** White space is single spaces *)

Lemma wsNormal_collapse (s : jsstring) : wsNormal (collapse s) = true.
Proof.
  remember (length s) as n eqn:Hn.
  assert (Hle : (length s <= n)%nat) by lia. clear Hn.
  revert s Hle; induction n as [|n IH]; intros [|c r] Hle;
    try reflexivity; [simpl in Hle; lia|].
  simpl in Hle.
  destruct (isWhiteSpace c) eqn:E.
  - rewrite (collapse_ws _ _ E). cbn [wsNormal].
    change (isWhiteSpace 32%N) with true. cbn [N.eqb Pos.eqb andb].
    destruct (collapse_head _ (headWs_trimStart r)) as [_ H]. rewrite H.
    apply IH. pose proof (length_trimStart r); lia.
  - rewrite (collapse_other _ _ E). cbn [wsNormal]. rewrite E.
    apply IH. lia.
Qed.

Lemma collapse_fixed (t : jsstring) : wsNormal t = true -> collapse t = t.
Proof.
  induction t as [|c r IH]; [reflexivity|]. cbn [wsNormal].
  intros H. apply andb_true_iff in H. destruct H as [H1 H2].
  destruct (isWhiteSpace c) eqn:E.
  - apply andb_true_iff in H1. destruct H1 as [Hc Hh].
    apply N.eqb_eq in Hc. apply negb_true_iff in Hh.
    rewrite (collapse_ws _ _ E), (trimStart_id _ Hh), (IH H2), Hc. reflexivity.
  - rewrite (collapse_other _ _ E), (IH H2). reflexivity.
Qed.

Lemma wsNormal_tl (c : char16) (r : jsstring) :
  wsNormal (c :: r) = true -> wsNormal r = true.
Proof. cbn [wsNormal]. intros H. apply andb_true_iff in H. tauto. Qed.

Lemma wsNormal_trimStart (s : jsstring) :
  wsNormal s = true -> wsNormal (trimStart s) = true.
Proof.
  induction s as [|c r IH]; [reflexivity|]. intros H. cbn [trimStart].
  destruct (isWhiteSpace c); [exact (IH (wsNormal_tl _ _ H)) | exact H].
Qed.

Lemma wsNormal_app_l (p w : jsstring) :
  wsNormal (p ++ w) = true -> wsNormal p = true.
Proof.
  induction p as [|c p IH]; [reflexivity|]. cbn [app wsNormal].
  intros H. apply andb_true_iff in H. destruct H as [H1 H2].
  rewrite (IH H2), andb_true_r.
  destruct (isWhiteSpace c); [|reflexivity].
  apply andb_true_iff in H1. destruct H1 as [Hc Hh]. rewrite Hc.
  destruct p; [reflexivity | exact Hh].
Qed.

Lemma wsNormal_trimEnd (s : jsstring) :
  wsNormal s = true -> wsNormal (trimEnd s) = true.
Proof.
  destruct (trimEnd_prefix s) as [w E]. intros H. rewrite E in H.
  exact (wsNormal_app_l _ _ H).
Qed.

Lemma wsNormal_In (t : jsstring) (c : char16) :
  wsNormal t = true -> In c t -> isWhiteSpace c = true -> c = 32%N.
Proof.
  induction t as [|d r IH]; [contradiction|]. cbn [wsNormal].
  intros H [->|Hin] Hc.
  - rewrite Hc in H. apply andb_true_iff in H. destruct H as [H _].
    apply andb_true_iff in H. destruct H as [H _].
    apply N.eqb_eq. exact H.
  - apply andb_true_iff in H. destruct H as [_ H]. exact (IH H Hin Hc).
Qed.

(** What a compressed text looks like. *)
Lemma compressStage_shape (s : jsstring) :
  hasGap (compressStage s) = false
  /\ wsNormal (compressStage s) = true
  /\ trim (compressStage s) = compressStage s.
Proof.
  unfold compressStage. split; [|split].
  - unfold trim. apply hasGap_trimEnd. rewrite hasGap_trimStart, hasGap_collapse.
    apply hasGap_tighten.
  - unfold trim. apply wsNormal_trimEnd, wsNormal_trimStart, wsNormal_collapse.
  - apply trim_idem.
Qed.

(** A page source with line breaks and indentation, compressed. *)
Example compressStage_example :
  compressStage
    (lit "  <ul>" ++ [10%N; 32%N; 32%N] ++ lit "<li> a" ++ [9%N; 13%N; 10%N]
     ++ lit "b </li>" ++ [10%N] ++ lit "</ul> ")
  = lit "<ul><li> a b </li></ul>".
Proof. reflexivity. Qed.

(** C8.  The compressed text holds no line feed and no carriage return
    (its only white space is single spaces), and compressing it again
    gives it back. *)
Theorem compressStage_idempotent (s : jsstring) :
  compressStage (compressStage s) = compressStage s
  /\ ~ In 10%N (compressStage s)
  /\ ~ In 13%N (compressStage s)
  /\ (forall c, In c (compressStage s) -> isWhiteSpace c = true -> c = 32%N).
Proof.
  destruct (compressStage_shape s) as [Hg [Hn Ht]].
  split; [|split; [|split]].
  - unfold compressStage at 1.
    rewrite (tighten_fixed _ Hg), (collapse_fixed _ Hn). exact Ht.
  - intros H. discriminate (wsNormal_In _ _ Hn H eq_refl).
  - intros H. discriminate (wsNormal_In _ _ Hn H eq_refl).
  - intros c. apply wsNormal_In. exact Hn.
Qed.

End Compression.

(* ================================================================== *)
(** * Part III. Further properties                                     *)
(* ================================================================== *)

(** ** More on the paginator *)

Section PaginatorMore.

Import HtmlSource.

Lemma slice_infix (s : jsstring) (a : number) (e : option number) :
  exists pre post, s = pre ++ slice s a e ++ post.
Proof.
  unfold slice.
  destruct (_ <=? _)%Z.
  - exists [], s. reflexivity.
  - eexists (firstn _ s), (skipn _ (skipn _ s)).
    rewrite firstn_skipn, firstn_skipn. reflexivity.
Qed.

Lemma paginate_infix (s : jsstring) (off maxLen : option number) :
  exists pre post, s = pre ++ content (paginate s off maxLen) ++ post.
Proof.
  unfold paginate. destruct maxLen as [M|]; cbn [content].
  - apply slice_infix.
  - destruct (num_ltb _ _); [apply slice_infix|].
    exists [], []. rewrite app_nil_r. reflexivity.
Qed.

Lemma paginate_content_In (s : jsstring) (off maxLen : option number)
    (c : char16) :
  In c (content (paginate s off maxLen)) -> In c s.
Proof.
  destruct (paginate_infix s off maxLen) as [pre [post E]].
  intros H. rewrite E. apply in_or_app. right. apply in_or_app. left. exact H.
Qed.

Lemma slice_nil (a : number) (e : option number) : slice [] a e = [].
Proof.
  destruct (slice_infix [] a e) as [pre [post E]].
  destruct pre; [|discriminate E].
  destruct (slice [] a e); [reflexivity | discriminate E].
Qed.

Lemma paginate_nil (off maxLen : option number) :
  content (paginate [] off maxLen) = []
  /\ totalLength (paginate [] off maxLen) = 0%Z
  /\ actualLength (paginate [] off maxLen) = 0%Z.
Proof.
  unfold paginate. destruct maxLen as [M|];
    cbn [content totalLength actualLength]; rewrite ?slice_nil.
  - repeat split.
  - destruct (num_ltb _ _); rewrite ?slice_nil; repeat split.
Qed.

(** X1.  Whatever the offset and the maximal length, negative,
    fractional and infinite ones included, the content is one contiguous
    piece of the filtered text: nothing is added, dropped from its middle
    or reordered. *)
Theorem paginate_content_contiguous (s : jsstring)
    (off maxLen : option number) :
  exists pre post,
    s = pre ++ content (paginate s off maxLen) ++ post
    /\ (length pre + length (content (paginate s off maxLen)) + length post
        = length s)%nat.
Proof.
  destruct (paginate_infix s off maxLen) as [pre [post E]].
  exists pre, post. split; [exact E|].
  pose proof (f_equal (@length _) E) as L. rewrite !length_app in L. lia.
Qed.

(** The one-argument [slice] at a non-negative integer. *)
Lemma slice_from (s : jsstring) (o : Z) :
  (0 <= o)%Z -> slice s (ofZ o) None = skipn (Z.to_nat o) s.
Proof.
  intros Ho. pose proof (len_nonneg s) as Hn.
  change (@None number) with (option_map ofZ None). rewrite slice_ofZ.
  unfold relIndex.
  destruct (o <? 0)%Z eqn:E0; [apply Z.ltb_lt in E0; lia|].
  destruct (len s <=? Z.min o (len s))%Z eqn:E1.
  - apply Z.leb_le in E1. symmetry. apply skipn_all2. unfold len in *. lia.
  - apply Z.leb_gt in E1. rewrite Z.min_l by lia.
    apply firstn_all2. rewrite length_skipn. unfold len in *. lia.
Qed.

Lemma trunc_nonneg (q : Q) : (0 <= Qnum q)%Z -> (0 <= trunc q)%Z.
Proof. intros H. unfold trunc. apply Z.quot_pos; lia. Qed.

(** X2.  Without [maxLength], a finite offset that is not negative,
    integer or not, gives the text from the integer part of the offset
    to its end (nothing when that is at or beyond the end), with
    [hasMore] false.  [actualOffset] is the offset as given, fraction
    included; it is the integer part of the offset that adds up with
    [actualLength] to [totalLength], for an offset inside the text. *)
Theorem paginate_without_maxLength (s : jsstring) (q : Q) :
  (0 <= Qnum q)%Z ->
  content (paginate s (Some (Fin q)) None) = skipn (Z.to_nat (trunc q)) s
  /\ hasMore (paginate s (Some (Fin q)) None) = false
  /\ (Qnum q <> 0%Z -> actualOffset (paginate s (Some (Fin q)) None) = Fin q)
  /\ ((trunc q <= len s)%Z ->
      (trunc q + actualLength (paginate s (Some (Fin q)) None)
       = totalLength (paginate s (Some (Fin q)) None))%Z).
Proof.
  intros Hq. pose proof (len_nonneg s) as Hn.
  pose proof (trunc_nonneg q Hq) as Ht.
  assert (Ec : content (paginate s (Some (Fin q)) None)
               = skipn (Z.to_nat (trunc q)) s).
  { unfold paginate, or_num, truthyNum. cbn [content].
    destruct (Qnum q =? 0)%Z eqn:E0; cbn [negb].
    - apply Z.eqb_eq in E0. unfold trunc. rewrite E0, Z.quot_0_l by lia.
      reflexivity.
    - apply Z.eqb_neq in E0.
      assert (El : num_ltb (ofZ 0) (Fin q) = true).
      { unfold num_ltb, ofZ, inject_Z. cbn [Qnum Qden].
        apply Z.ltb_lt. lia. }
      rewrite El.
      assert (Es : slice s (Fin q) None = slice s (ofZ (trunc q)) None).
      { unfold slice. rewrite sliceIndex_ofZ. reflexivity. }
      rewrite Es. apply slice_from. exact Ht. }
  split; [exact Ec|]. split; [reflexivity|]. split.
  - intros Hne. unfold paginate, or_num, truthyNum. cbn [actualOffset].
    apply Z.eqb_neq in Hne. rewrite Hne. reflexivity.
  - intros Hle. rewrite paginate_actualLength, Ec, paginate_totalLength.
    unfold len in *. rewrite length_skipn. lia.
Qed.

(** The text [abcdef] read from the offset 3/2. *)
Lemma paginate_without_maxLength_witness :
  content (paginate (lit "abcdef") (Some (Fin (3 # 2))) None) = lit "bcdef"
  /\ hasMore (paginate (lit "abcdef") (Some (Fin (3 # 2))) None) = false
  /\ actualOffset (paginate (lit "abcdef") (Some (Fin (3 # 2))) None)
     = Fin (3 # 2).
Proof.
  destruct (@paginate_without_maxLength (lit "abcdef") (3 # 2))
    as [H1 [H2 [H3 _]]]; [cbn; lia|].
  split; [exact H1|]. split; [exact H2|]. apply H3. discriminate.
Defined.

(** X3.  For an integer offset and an integer [maxLength], neither
    negative, the window holds [min maxLength (totalLength - offset)]
    characters, none when the offset is at or beyond the end, and
    [hasMore] is exactly [offset + maxLength < totalLength].  A
    [maxLength] of 0 is a window like any other, not an omitted one: its
    content is empty and [hasMore] says whether text follows the
    offset. *)
Theorem paginate_window_size (s : jsstring) (o M : Z) :
  (0 <= o)%Z -> (0 <= M)%Z ->
  actualLength (paginate s (Some (ofZ o)) (Some (ofZ M)))
  = Z.max 0 (Z.min M (len s - o))
  /\ hasMore (paginate s (Some (ofZ o)) (Some (ofZ M))) = (o + M <? len s)%Z
  /\ ((len s <= o)%Z \/ M = 0%Z ->
      content (paginate s (Some (ofZ o)) (Some (ofZ M))) = []).
Proof.
  intros Ho HM. pose proof (len_nonneg s) as Hn.
  assert (El : actualLength (paginate s (Some (ofZ o)) (Some (ofZ M)))
               = Z.max 0 (Z.min M (len s - o))).
  { rewrite paginate_ofZ. cbn [actualLength].
    rewrite len_slice, !sliceIndex_ofZ. unfold relIndex.
    destruct (Z.min (o + M) (len s) <? 0)%Z eqn:E1;
      [apply Z.ltb_lt in E1; lia|].
    destruct (o <? 0)%Z eqn:E2; [apply Z.ltb_lt in E2; lia|]. lia. }
  split; [exact El|]. split.
  - rewrite paginate_ofZ. cbn [hasMore].
    destruct (o + M <? len s)%Z eqn:E;
      [apply Z.ltb_lt in E; apply Z.ltb_lt | apply Z.ltb_ge in E; apply Z.ltb_ge];
      lia.
  - intros Hc. rewrite paginate_actualLength in El.
    apply length_zero_iff_nil. unfold len in *. lia.
Qed.

(** A window of no characters in the middle of [abcdef]. *)
Lemma paginate_window_size_witness :
  actualLength (paginate (lit "abcdef") (Some (ofZ 2)) (Some (ofZ 0))) = 0%Z
  /\ hasMore (paginate (lit "abcdef") (Some (ofZ 2)) (Some (ofZ 0))) = true.
Proof.
  destruct (@paginate_window_size (lit "abcdef") 2%Z 0%Z) as [H1 [H2 _]];
    [lia | lia |].
  split; [exact H1 | exact H2].
Defined.

(** X4.  A negative integer [maxLength] is not rejected.  For an integer
    offset inside the text [hasMore] is then always true, even on the
    empty text; the content is empty as long as [offset + maxLength] is
    not negative, and otherwise it is the text from the offset with the
    last [- (offset + maxLength)] characters cut off. *)
Theorem paginate_negative_maxLength (s : jsstring) (o M : Z) :
  (0 <= o <= len s)%Z -> (M < 0)%Z ->
  hasMore (paginate s (Some (ofZ o)) (Some (ofZ M))) = true
  /\ content (paginate s (Some (ofZ o)) (Some (ofZ M)))
     = if (0 <=? o + M)%Z then []
       else firstn (Z.to_nat (len s + M)) (skipn (Z.to_nat o) s).
Proof.
  intros Ho HM. rewrite paginate_ofZ. cbn [hasMore content].
  rewrite (Z.min_l (o + M) (len s)) by lia. split; [apply Z.ltb_lt; lia|].
  change (Some (ofZ (o + M))) with (option_map ofZ (Some (o + M)%Z)).
  rewrite slice_ofZ. unfold relIndex.
  destruct (o <? 0)%Z eqn:E0; [apply Z.ltb_lt in E0; lia|].
  rewrite (Z.min_l o (len s)) by lia.
  destruct (0 <=? o + M)%Z eqn:E1.
  - apply Z.leb_le in E1.
    destruct (o + M <? 0)%Z eqn:E2; [apply Z.ltb_lt in E2; lia|].
    rewrite (Z.min_l (o + M) (len s)) by lia.
    destruct (o + M <=? o)%Z eqn:E3; [reflexivity | apply Z.leb_gt in E3; lia].
  - apply Z.leb_gt in E1.
    destruct (o + M <? 0)%Z eqn:E2; [|apply Z.ltb_ge in E2; lia].
    destruct (Z.max (len s + (o + M)) 0 <=? o)%Z eqn:E3.
    + apply Z.leb_le in E3.
      replace (Z.to_nat (len s + M)) with 0%nat by lia. reflexivity.
    + apply Z.leb_gt in E3. f_equal. lia.
Qed.

(** [abcdefghij] with [maxLength] -3: the first seven characters. *)
Lemma paginate_negative_maxLength_witness :
  hasMore (paginate (lit "abcdefghij") (Some (ofZ 0)) (Some (ofZ (-3)))) = true
  /\ content (paginate (lit "abcdefghij") (Some (ofZ 0)) (Some (ofZ (-3))))
     = lit "abcdefg".
Proof.
  destruct (@paginate_negative_maxLength (lit "abcdefghij") 0%Z (-3)%Z)
    as [H1 H2]; [unfold len; simpl length; lia | lia |].
  split; [exact H1 | exact H2].
Defined.

End PaginatorMore.

(** ** More on the presets *)

Section PresetMore.

Import HtmlSource.

Lemma applyPreset_cases (params : Params) :
  applyPreset params = params
  \/ (preset params = Some (lit "minimal")
      /\ applyPreset params
         = withTagsCompressedNoComments params
             [lit "script"; lit "style"; lit "noscript"])
  \/ (preset params = Some (lit "structure")
      /\ applyPreset params
         = withTagsCompressed params [lit "script"; lit "style"])
  \/ (preset params = Some (lit "content")
      /\ applyPreset params
         = withTagsCompressed params
             [lit "script"; lit "style"; lit "meta"; lit "link"]).
Proof.
  unfold applyPreset. destruct (preset params) as [p|]; [|auto].
  destruct (negb (truthy p)); [auto|].
  destruct (str_eqb p (lit "minimal")) eqn:E1.
  { apply str_eqb_eq in E1. subst p. auto. }
  destruct (str_eqb p (lit "structure")) eqn:E2.
  { apply str_eqb_eq in E2. subst p. auto. }
  destruct (str_eqb p (lit "content")) eqn:E3.
  { apply str_eqb_eq in E3. subst p. auto 6. }
  destruct (str_eqb p (lit "full")); auto.
Qed.

(** X5.  Whatever the preset, resolving it leaves the caller's
    [selector], [maxLength], [offset], [headOnly], [bodyOnly],
    [prettyPrint] and [preset] as they are, and resolving twice is
    resolving once. *)
Theorem applyPreset_keeps (params : Params) :
  selector (applyPreset params) = selector params
  /\ maxLength (applyPreset params) = maxLength params
  /\ offset (applyPreset params) = offset params
  /\ headOnly (applyPreset params) = headOnly params
  /\ bodyOnly (applyPreset params) = bodyOnly params
  /\ prettyPrint (applyPreset params) = prettyPrint params
  /\ preset (applyPreset params) = preset params
  /\ applyPreset (applyPreset params) = applyPreset params.
Proof.
  destruct (applyPreset_cases params) as [E|[[Hp E]|[[Hp E]|[Hp E]]]];
    rewrite !E; repeat (split; [reflexivity|]).
  - reflexivity.
  - unfold applyPreset. cbn [preset withTagsCompressedNoComments].
    rewrite Hp. reflexivity.
  - unfold applyPreset. cbn [preset withTagsCompressed].
    rewrite Hp. reflexivity.
  - unfold applyPreset. cbn [preset withTagsCompressed].
    rewrite Hp. reflexivity.
Qed.

Lemma applyPreset_includeComments (params : Params) :
  Pipeline.isTrue (includeComments params) = false ->
  Pipeline.isTrue (includeComments (applyPreset params)) = false.
Proof.
  destruct (applyPreset_cases params) as [E|[[_ E]|[[_ E]|[_ E]]]];
    rewrite E; auto.
Qed.



End PresetMore.

(** ** More on the string stages *)

Section Stages.

Import HtmlSource Pipeline.

Local Abbreviation tighten := (replaceAll match_gt_ws_lt (lit "><") 0).
Local Abbreviation collapse := (replaceAll match_ws (lit " ") 0).

Lemma jsstring_length_ind (P : jsstring -> Prop) :
  (forall s, (forall t, (length t < length s)%nat -> P t) -> P s) ->
  forall s, P s.
Proof.
  intros H s. remember (length s) as n eqn:Hn.
  assert (Hle : (length s <= n)%nat) by lia. clear Hn.
  revert s Hle. induction n as [|n IH]; intros s Hle; apply H; intros t Ht.
  - lia.
  - apply IH. lia.
Qed.

Lemma nonWhite_trimStart (s : jsstring) : nonWhite (trimStart s) = nonWhite s.
Proof.
  induction s as [|c r IH]; [reflexivity|]. cbn [trimStart].
  destruct (isWhiteSpace c) eqn:E; [|reflexivity].
  unfold nonWhite in *. cbn [filter]. rewrite E. exact IH.
Qed.

Lemma nonWhite_trimEnd (s : jsstring) : nonWhite (trimEnd s) = nonWhite s.
Proof.
  induction s as [|c r IH]; [reflexivity|]. cbn [trimEnd].
  unfold nonWhite in *. cbn [filter].
  destruct (trimEnd r) as [|x y].
  - rewrite <- IH. destruct (isWhiteSpace c) eqn:E; cbn [filter negb];
      rewrite ?E; reflexivity.
  - cbn [filter] in *. rewrite IH. reflexivity.
Qed.

Lemma length_trimEnd (s : jsstring) : (length (trimEnd s) <= length s)%nat.
Proof.
  destruct (trimEnd_prefix s) as [w E]. rewrite E at 2. rewrite length_app. lia.
Qed.

Lemma startsGap_inv (r : jsstring) :
  startsGap r = true -> exists q, trimStart r = 60%N :: q.
Proof.
  unfold startsGap. intros H. apply andb_true_iff in H. destruct H as [_ H].
  destruct (trimStart r) as [|d q]; [discriminate|].
  apply N.eqb_eq in H. subst d. eauto.
Qed.

Lemma tighten_keeps (s : jsstring) :
  nonWhite (tighten s) = nonWhite s /\ (length (tighten s) <= length s)%nat.
Proof.
  induction s as [s IH] using jsstring_length_ind.
  destruct s as [|c r]; [split; reflexivity|].
  destruct ((c =? 62)%N && startsGap r) eqn:E.
  - rewrite (tighten_gap _ _ E). apply andb_true_iff in E. destruct E as [Ec Eg].
    apply N.eqb_eq in Ec. subst c.
    destruct (startsGap_inv _ Eg) as [q Hq].
    pose proof (length_trimStart r) as Hl. pose proof (nonWhite_trimStart r) as Hw.
    rewrite Hq in *. cbn [tl]. cbn [length] in Hl.
    destruct (IH q) as [IH1 IH2]; [cbn [length]; lia|].
    split.
    + unfold nonWhite in *. cbn [filter] in *.
      change (isWhiteSpace 62%N) with false.
      change (isWhiteSpace 60%N) with false in *.
      cbn [negb] in *. rewrite <- Hw, IH1. reflexivity.
    + cbn [length]. lia.
  - rewrite (tighten_other _ _ E).
    destruct (IH r) as [IH1 IH2]; [cbn [length]; lia|].
    split.
    + unfold nonWhite in *. cbn [filter]. rewrite IH1. reflexivity.
    + cbn [length]. lia.
Qed.

Lemma collapse_keeps (s : jsstring) :
  nonWhite (collapse s) = nonWhite s /\ (length (collapse s) <= length s)%nat.
Proof.
  induction s as [s IH] using jsstring_length_ind.
  destruct s as [|c r]; [split; reflexivity|].
  destruct (isWhiteSpace c) eqn:E.
  - rewrite (collapse_ws _ _ E).
    pose proof (length_trimStart r) as Hl.
    destruct (IH (trimStart r)) as [IH1 IH2]; [cbn [length]; lia|].
    split.
    + unfold nonWhite in *. cbn [filter]. rewrite E.
      change (isWhiteSpace 32%N) with true. cbn [negb].
      rewrite IH1. apply nonWhite_trimStart.
    + cbn [length]. lia.
  - rewrite (collapse_other _ _ E).
    destruct (IH r) as [IH1 IH2]; [cbn [length]; lia|].
    split.
    + unfold nonWhite in *. cbn [filter]. rewrite E, IH1. reflexivity.
    + cbn [length]. lia.
Qed.

(** X7.  Compression only touches white space: the characters that are
    not white space come out unchanged and in order, and the text never
    gets longer. *)
Theorem compressStage_keeps_text (s : jsstring) :
  nonWhite (compressStage s) = nonWhite s
  /\ (length (compressStage s) <= length s)%nat.
Proof.
  unfold compressStage, trim.
  destruct (tighten_keeps s) as [T1 T2].
  destruct (collapse_keeps (tighten s)) as [C1 C2].
  split.
  - rewrite nonWhite_trimEnd, nonWhite_trimStart, C1. exact T1.
  - pose proof (length_trimEnd (trimStart (collapse (tighten s)))).
    pose proof (length_trimStart (collapse (tighten s))). lia.
Qed.

End Stages.

(** ** Comments and pretty printing *)

Section Comments.

Import HtmlSource Pipeline.

Lemma stripComments_cons_none (c : char16) (r : jsstring) :
  match_comment (c :: r) = None ->
  stripComments (c :: r) = c :: stripComments r.
Proof. intros H. unfold stripComments. cbn [replaceAll]. rewrite H. reflexivity. Qed.

Lemma stripComments_cons_some (c : char16) (r : jsstring) (k : nat) :
  match_comment (c :: r) = Some (S k) ->
  stripComments (c :: r) = stripComments (skipn k r).
Proof.
  intros H. unfold stripComments. cbn [replaceAll]. rewrite H.
  rewrite replaceAll_skip. reflexivity.
Qed.

Lemma includes_cons (c : char16) (r p : jsstring) :
  includes (c :: r) p = false ->
  startsWith (c :: r) p = false /\ includes r p = false.
Proof. cbn [includes]. intros H. apply orb_false_iff in H. exact H. Qed.

Lemma includes_skipn (k : nat) (s p : jsstring) :
  includes s p = false -> includes (skipn k s) p = false.
Proof.
  revert s; induction k as [|k IH]; intros s H; [exact H|].
  destruct s as [|c r]; [exact H|]. cbn [skipn].
  apply IH. apply (includes_cons _ _ _ H).
Qed.

Lemma includes_indexOf (s p : jsstring) :
  includes s p = false -> indexOf p s = None.
Proof.
  induction s as [|c r IH]; intros H.
  - cbn [includes indexOf] in *. apply orb_false_iff in H.
    destruct H as [H _]. rewrite H. reflexivity.
  - destruct (includes_cons _ _ _ H) as [H1 H2].
    cbn [indexOf]. rewrite H1, (IH H2). reflexivity.
Qed.

(** X9.  A text that holds no [<!--], or no [-->], passes the comment
    stage unchanged: in particular a comment that is opened and never
    closed is kept. *)
Theorem stripComments_unchanged (s : jsstring) :
  includes s (lit "<!--") = false \/ includes s (lit "-->") = false ->
  stripComments s = s.
Proof.
  induction s as [|c r IH]; intros H; [reflexivity|].
  rewrite stripComments_cons_none.
  - f_equal. apply IH.
    destruct H as [H|H]; [left | right]; apply (includes_cons _ _ _ H).
  - unfold match_comment. destruct H as [H|H].
    + destruct (includes_cons _ _ _ H) as [H1 _]. rewrite H1. reflexivity.
    + rewrite (includes_indexOf _ _ (includes_skipn 4 _ _ H)).
      destruct (startsWith _ _); reflexivity.
Qed.

(** A comment that is never closed. *)
Lemma stripComments_unchanged_witness :
  stripComments (lit "<p>a</p><!-- open <b>c</b>")
  = lit "<p>a</p><!-- open <b>c</b>".
Proof.
  apply (@stripComments_unchanged (lit "<p>a</p><!-- open <b>c</b>")).
  right. reflexivity.
Defined.

Lemma startsWith_close_app (c : char16) (x y : jsstring) :
  startsWith (c :: x) (lit "-->") = false ->
  includes x (lit "-->") = false ->
  noStraddle y = true ->
  startsWith ((c :: x) ++ y) (lit "-->") = false.
Proof.
  change (lit "-->") with [45%N; 45%N; 62%N].
  intros H _ Hy.
  destruct x as [|d [|e x]]; destruct y as [|y0 [|y1 y]];
    cbn [startsWith app noStraddle] in *;
    repeat match goal with
           | |- context [N.eqb ?a ?b] => destruct (N.eqb a b)
           | H : context [N.eqb ?a ?b] |- _ => destruct (N.eqb a b)
           end;
    cbn [andb negb] in *; try congruence;
    destruct x; discriminate H.
Qed.

Lemma indexOf_app (x y : jsstring) :
  includes x (lit "-->") = false ->
  noStraddle y = true ->
  indexOf (lit "-->") (x ++ y)
  = option_map (Nat.add (length x)) (indexOf (lit "-->") y).
Proof.
  intros Hx Hy. induction x as [|c x IH].
  - cbn [app length]. destruct (indexOf _ y); reflexivity.
  - destruct (includes_cons _ _ _ Hx) as [H1 H2].
    change ((c :: x) ++ y) with (c :: (x ++ y)) at 1.
    cbn [indexOf].
    change (c :: (x ++ y)) with ((c :: x) ++ y).
    rewrite (startsWith_close_app _ _ _ H1 H2 Hy), (IH H2).
    destruct (indexOf _ y); reflexivity.
Qed.

Lemma skipn_past (x y : jsstring) (n : nat) :
  skipn (length x + n) (x ++ y) = skipn n y.
Proof.
  induction x as [|c x IH]; [reflexivity|]. exact IH.
Qed.

Lemma startsWith_app_self (p s : jsstring) : startsWith (p ++ s) p = true.
Proof.
  induction p as [|c p IH]; [destruct s; reflexivity|].
  cbn [app startsWith]. rewrite N.eqb_refl. exact IH.
Qed.

(** A comment at the start of a text is taken out whole. *)
Lemma stripComments_comment (body b : jsstring) :
  includes body (lit "-->") = false ->
  stripComments (lit "<!--" ++ body ++ lit "-->" ++ b) = stripComments b.
Proof.
  intros Hb.
  assert (Hm : match_comment (lit "<!--" ++ body ++ lit "-->" ++ b)
               = Some (S (S (S (S (length body + 0 + 3)))))).
  { unfold match_comment. rewrite startsWith_app_self.
    change (skipn 4 (lit "<!--" ++ body ++ lit "-->" ++ b))
      with (body ++ lit "-->" ++ b).
    rewrite (indexOf_app body (lit "-->" ++ b) Hb eq_refl).
    assert (E : indexOf (lit "-->") (lit "-->" ++ b) = Some 0%nat).
    { change (lit "-->" ++ b) with (45%N :: (lit "->" ++ b)).
      cbn [indexOf]. change (45%N :: (lit "->" ++ b)) with (lit "-->" ++ b).
      rewrite startsWith_app_self. reflexivity. }
    rewrite E. reflexivity. }
  transitivity (stripComments (skipn (length body + 0 + 3) (body ++ lit "-->" ++ b))).
  - exact (stripComments_cons_some 60%N (33%N :: 45%N :: 45%N :: (body ++ lit "-->" ++ b)) Hm).
  - rewrite <- Nat.add_assoc, skipn_past. reflexivity.
Qed.

(** X8.  A comment whose body holds no [-->], standing behind text
    without a [<], is removed whole, and the stage goes on behind it;
    the text before it is kept. *)
Theorem stripComments_removes (a body b : jsstring) :
  Forall (fun c => c <> 60%N) a ->
  includes body (lit "-->") = false ->
  stripComments (a ++ lit "<!--" ++ body ++ lit "-->" ++ b)
  = a ++ stripComments b.
Proof.
  intros Ha Hb. induction Ha as [|c a Hc _ IH].
  - apply stripComments_comment; exact Hb.
  - cbn [app]. rewrite stripComments_cons_none; [rewrite IH; reflexivity|].
    unfold match_comment. change (lit "<!--") with [60%N; 33%N; 45%N; 45%N].
    cbn [startsWith]. apply N.eqb_neq in Hc. rewrite Hc. reflexivity.
Qed.

(** Two comments in a line of text. *)
Lemma stripComments_removes_witness :
  stripComments (lit "a b " ++ lit "<!--" ++ lit " note -- here " ++ lit "-->"
                 ++ lit "<i>c</i><!---->d")
  = lit "a b " ++ lit "<i>c</i>d".
Proof.
  rewrite (@stripComments_removes (lit "a b ") (lit " note -- here ")
             (lit "<i>c</i><!---->d")).
  - reflexivity.
  - repeat constructor; discriminate.
  - reflexivity.
Defined.

(** *** Pretty printing *)

Lemma match_ws_eol_le (s : jsstring) (k : nat) :
  match_ws_eol s = Some k -> (1 <= k <= wsRun s)%nat.
Proof.
  revert k; induction s as [|c r IH]; intros k; [discriminate|].
  cbn [match_ws_eol wsRun]. destruct (isWhiteSpace c); [|discriminate].
  destruct (match_ws_eol r) as [j|].
  - intros E. inversion E. specialize (IH j eq_refl). lia.
  - destruct r as [|d r']; [intros E; inversion E; lia|].
    destruct (isLineTerminator d); [|discriminate].
    intros E. inversion E. lia.
Qed.

Lemma match_ws_le (s : jsstring) (k : nat) :
  match_ws s = Some k -> (1 <= k <= wsRun s)%nat.
Proof.
  unfold match_ws. destruct (wsRun s); [discriminate|].
  intros E. inversion E. lia.
Qed.

Lemma trimLines_keeps (s : jsstring) :
  forall (b : bool) (k : nat),
    (k <= wsRun s)%nat -> nonWhite (trimLines b k s) = nonWhite s.
Proof.
  induction s as [|c r IH]; intros b k Hk; [reflexivity|].
  cbn [trimLines]. destruct k as [|k].
  - destruct (if b then match_ws (c :: r) else match_ws_eol (c :: r))
      as [[|j]|] eqn:E.
    + unfold nonWhite in *. cbn [filter]. rewrite (IH _ 0%nat) by lia.
      reflexivity.
    + assert (Hj : (1 <= S j <= wsRun (c :: r))%nat).
      { destruct b; [apply match_ws_le | apply match_ws_eol_le]; exact E. }
      cbn [wsRun] in Hj. destruct (isWhiteSpace c) eqn:Ec; [|lia].
      rewrite IH by lia. unfold nonWhite. cbn [filter]. rewrite Ec. reflexivity.
    + unfold nonWhite in *. cbn [filter]. rewrite (IH _ 0%nat) by lia.
      reflexivity.
  - cbn [wsRun] in Hk. destruct (isWhiteSpace c) eqn:Ec; [|lia].
    rewrite IH by lia. unfold nonWhite. cbn [filter]. rewrite Ec. reflexivity.
Qed.

Lemma startsWith_nil (s : jsstring) : startsWith s [] = true.
Proof. destruct s; reflexivity. Qed.

Lemma match_tag_boundary_cons (c : char16) (r : jsstring) :
  match_tag_boundary (c :: r)
  = if (c =? 62)%N && match r with d :: _ => (d =? 60)%N | [] => false end
    then Some 2%nat else None.
Proof.
  unfold match_tag_boundary. change (lit "><") with [62%N; 60%N].
  cbn [startsWith]. destruct r as [|d r']; cbn [startsWith]; [reflexivity|].
  rewrite startsWith_nil, andb_true_r. reflexivity.
Qed.

Lemma tag_boundary_keeps (s : jsstring) :
  nonWhite (replaceAll match_tag_boundary (lit ">" ++ [10%N] ++ lit "<") 0 s)
  = nonWhite s.
Proof.
  induction s as [s IH] using jsstring_length_ind.
  destruct s as [|c r]; [reflexivity|].
  cbn [replaceAll]. rewrite match_tag_boundary_cons.
  destruct ((c =? 62)%N && match r with d :: _ => (d =? 60)%N | [] => false end)
    eqn:E.
  - destruct r as [|d r']; [rewrite andb_false_r in E; discriminate|].
    apply andb_true_iff in E. destruct E as [Ec Ed].
    apply N.eqb_eq in Ec, Ed. subst c d. cbn [replaceAll].
    change (lit ">" ++ [10%N] ++ lit "<") with [62%N; 10%N; 60%N].
    cbn [app]. unfold nonWhite in *.
    change (filter (fun c => negb (isWhiteSpace c))
              (62%N :: 10%N :: 60%N
                 :: replaceAll match_tag_boundary [62%N; 10%N; 60%N] 0 r'))
      with (62%N :: 60%N
              :: filter (fun c => negb (isWhiteSpace c))
                   (replaceAll match_tag_boundary [62%N; 10%N; 60%N] 0 r')).
    change (filter (fun c => negb (isWhiteSpace c)) (62%N :: 60%N :: r'))
      with (62%N :: 60%N :: filter (fun c => negb (isWhiteSpace c)) r').
    change [62%N; 10%N; 60%N] with (lit ">" ++ [10%N] ++ lit "<").
    rewrite IH by (cbn [length]; lia). reflexivity.
  - unfold nonWhite in *. cbn [filter].
    rewrite IH by (cbn [length]; lia). reflexivity.
Qed.

Lemma prettyPrintStage_keeps (s : jsstring) :
  nonWhite (prettyPrintStage s) = nonWhite s.
Proof.
  unfold prettyPrintStage. rewrite trimLines_keeps by lia.
  apply tag_boundary_keeps.
Qed.

(** X13.  When the comments are kept, the string stages touch white
    space only: compression and pretty printing, whichever applies,
    leave every other character of the selected markup in place. *)
Theorem filterSource_keeps_text (finalParams : Params) (htmlSource : jsstring) :
  isTrue (includeComments finalParams) = true ->
  nonWhite (filterSource finalParams htmlSource) = nonWhite htmlSource.
Proof.
  intros H. unfold filterSource. rewrite H. cbn [negb].
  destruct (isTrue (compress finalParams)); cbn [negb andb].
  - rewrite andb_false_r. unfold compressStage, trim.
    rewrite nonWhite_trimEnd, nonWhite_trimStart, (proj1 (collapse_keeps _)).
    apply (proj1 (tighten_keeps _)).
  - rewrite andb_true_r. destruct (isTrue (prettyPrint finalParams));
      [apply prettyPrintStage_keeps | reflexivity].
Qed.

(** Pretty printing with the comments kept. *)
Lemma filterSource_keeps_text_witness :
  nonWhite
    (filterSource
       (mkParams None None (Some true) (Some true) None None None None None None)
       (lit " <a><!-- c --><b> x </b> </a> "))
  = lit "<a><!--c--><b>x</b></a>".
Proof.
  rewrite (@filterSource_keeps_text
             (mkParams None None (Some true) (Some true) None None None None
                None None)
             (lit " <a><!-- c --><b> x </b> </a> ") eq_refl).
  reflexivity.
Defined.

End Comments.

(** ** The whole of [handle] *)

Section Handle.

Import HtmlSource Pipeline.

Context `{B : Browser}.

Lemma applyPreset_region (params : Params) :
  selector (applyPreset params) = selector params
  /\ headOnly (applyPreset params) = headOnly params
  /\ bodyOnly (applyPreset params) = bodyOnly params.
Proof.
  destruct (applyPreset_cases params) as [E|[[_ E]|[[_ E]|[_ E]]]];
    rewrite !E; repeat split.
Qed.

Lemma applyPreset_compress (params : Params) :
  isTrue (compress params) = true
  \/ (exists p, preset params = Some p
                /\ In p [lit "minimal"; lit "structure"; lit "content"]) ->
  isTrue (compress (applyPreset params)) = true.
Proof.
  intros [H|[p [Hp Hin]]].
  - destruct (applyPreset_cases params) as [E|[[_ E]|[[_ E]|[_ E]]]];
      rewrite E; auto.
  - unfold applyPreset. rewrite Hp.
    destruct Hin as [<-|[<-|[<-|[]]]]; reflexivity.
Qed.

(** X10.  When the caller asks for compression, or names one of the
    presets [minimal], [structure] and [content], no window of the
    result holds a line feed or a carriage return, whatever the page,
    the region selected, the offset and the maximal length. *)
Theorem handle_compressed_one_line (params : Params) (d : dom) :
  isTrue (compress params) = true
  \/ (exists p, preset params = Some p
                /\ In p [lit "minimal"; lit "structure"; lit "content"]) ->
  ~ In 10%N (content (snd (handle params d)))
  /\ ~ In 13%N (content (snd (handle params d))).
Proof.
  intros H. apply applyPreset_compress in H.
  unfold handle. cbn [snd]. unfold filterSource. rewrite H.
  cbn [negb]. rewrite andb_false_r.
  match goal with
  | |- context [compressStage ?h] =>
      destruct (compressStage_shape h) as [_ [Hn _]]
  end.
  split; intros Hin; apply paginate_content_In in Hin;
    discriminate (wsNormal_In _ _ Hn Hin eq_refl).
Qed.

Lemma filterSource_nil (finalParams : Params) :
  filterSource finalParams [] = [].
Proof.
  unfold filterSource.
  destruct (isTrue (includeComments finalParams)),
    (isTrue (compress finalParams)), (isTrue (prettyPrint finalParams));
    reflexivity.
Qed.

(** A placeholder that the comment stage removes leaves nothing. *)
Lemma filterSource_placeholder (finalParams : Params) (h : jsstring) :
  isTrue (includeComments finalParams) = false ->
  stripComments h = [] ->
  filterSource finalParams h = [].
Proof.
  intros Hc Hs. unfold filterSource. rewrite Hc. cbn [negb]. rewrite Hs.
  destruct (isTrue (compress finalParams)), (isTrue (prettyPrint finalParams));
    reflexivity.
Qed.

(** X11.  The placeholder for a missing [<head>] or [<body>] is itself a
    comment: unless the caller sets [includeComments], the comment stage
    removes it (under every preset), and the call answers with an empty
    content and [totalLength] 0 instead of the placeholder. *)
Theorem handle_missing_section_empty (params : Params) (d : dom) :
  selector params = None \/ selector params = Some [] ->
  isTrue (includeComments params) = false ->
  (isTrue (headOnly params) = true
   /\ outerHTML (lit "head") (fst (handle params d)) = None)
  \/ (isTrue (headOnly params) = false /\ isTrue (bodyOnly params) = true
      /\ outerHTML (lit "body") (fst (handle params d)) = None) ->
  content (snd (handle params d)) = []
  /\ totalLength (snd (handle params d)) = 0%Z.
Proof.
  intros Hsel Hc Hreg.
  destruct (applyPreset_region params) as [Es [Eh Eb]].
  pose proof (applyPreset_includeComments params Hc) as Hc'.
  unfold handle in *. cbn [fst snd] in *.
  set (finalParams := applyPreset params) in *.
  set (d1 := match excludeTags finalParams with
             | Some (t :: tags) => removeTags (t :: tags) d
             | _ => d
             end) in *.
  assert (E : filterSource finalParams
                (selectRegion finalParams d1 (pageContent d1)) = []).
  { apply filterSource_placeholder; [exact Hc'|].
    unfold selectRegion. rewrite Es, Eh, Eb.
    assert (Hs : match selector params with
                 | Some (_ :: _) => False
                 | _ => True
                 end) by (destruct Hsel as [-> | ->]; exact I).
    destruct (selector params) as [[|c sel]|]; try contradiction;
      destruct Hreg as [[H1 H2]|[H1 [H2 H3]]];
      rewrite ?H1, ?H2, ?H3; reflexivity. }
  rewrite E. destruct (paginate_nil (offset finalParams) (maxLength finalParams))
    as [P1 [P2 _]].
  split; assumption.
Qed.

Lemma includes_cons_other (c : char16) (s : jsstring) :
  c <> 45%N -> includes s (lit "-->") = false ->
  includes (c :: s) (lit "-->") = false.
Proof.
  intros Hc Hs. cbn [includes]. rewrite Hs, orb_false_r.
  change (lit "-->") with [45%N; 45%N; 62%N]. cbn [startsWith].
  apply N.eqb_neq in Hc. rewrite Hc. reflexivity.
Qed.

Lemma includes_app (x y : jsstring) :
  includes x (lit "-->") = false -> noStraddle y = true ->
  includes y (lit "-->") = false ->
  includes (x ++ y) (lit "-->") = false.
Proof.
  intros Hx Hn Hy. induction x as [|c x IH]; [exact Hy|].
  destruct (includes_cons _ _ _ Hx) as [H1 H2].
  change ((c :: x) ++ y) with (c :: (x ++ y)). cbn [includes].
  rewrite (IH H2), orb_false_r.
  exact (startsWith_close_app _ _ _ H1 H2 Hn).
Qed.

Lemma stripComments_selectorNotFound (sel : jsstring) :
  includes sel (lit "-->") = false ->
  stripComments (selectorNotFound sel) = [].
Proof.
  intros H. unfold selectorNotFound.
  replace (lit "<!-- Selector " ++ [34%N] ++ sel ++ [34%N] ++ lit " not found -->")
    with (lit "<!--"
          ++ (lit " Selector " ++ [34%N] ++ sel ++ [34%N] ++ lit " not found ")
          ++ lit "-->" ++ []).
  - rewrite stripComments_comment; [reflexivity|].
    change (lit " Selector " ++ [34%N] ++ sel ++ [34%N] ++ lit " not found ")
      with (32%N :: 83%N :: 101%N :: 108%N :: 101%N :: 99%N :: 116%N :: 111%N
            :: 114%N :: 32%N :: 34%N :: (sel ++ [34%N] ++ lit " not found ")).
    repeat (apply includes_cons_other; [discriminate|]).
    apply includes_app; [exact H | reflexivity | reflexivity].
  - simpl. rewrite <- app_assoc. reflexivity.
Qed.

(** X12.  A selector that matches nothing, or does not parse, gives the
    placeholder naming it; that placeholder too is a comment, so unless
    the caller sets [includeComments] (and as long as the selector does
    not itself hold [-->]) the call answers with an empty content and
    [totalLength] 0. *)
Theorem handle_missing_selector_empty (params : Params) (d : dom)
    (c : char16) (sel : jsstring) :
  selector params = Some (c :: sel) ->
  includes (c :: sel) (lit "-->") = false ->
  isTrue (includeComments params) = false ->
  outerHTMLAll (c :: sel) (fst (handle params d)) = None
  \/ outerHTMLAll (c :: sel) (fst (handle params d)) = Some [] ->
  content (snd (handle params d)) = []
  /\ totalLength (snd (handle params d)) = 0%Z.
Proof.
  intros Hsel Hinc Hc Hq.
  destruct (applyPreset_region params) as [Es _].
  pose proof (applyPreset_includeComments params Hc) as Hc'.
  unfold handle in *. cbn [fst snd] in *.
  set (finalParams := applyPreset params) in *.
  set (d1 := match excludeTags finalParams with
             | Some (t :: tags) => removeTags (t :: tags) d
             | _ => d
             end) in *.
  assert (E : filterSource finalParams
                (selectRegion finalParams d1 (pageContent d1)) = []).
  { apply filterSource_placeholder; [exact Hc'|].
    unfold selectRegion. rewrite Es, Hsel.
    destruct Hq as [-> | ->]; apply stripComments_selectorNotFound; exact Hinc. }
  rewrite E. destruct (paginate_nil (offset finalParams) (maxLength finalParams))
    as [P1 [P2 _]].
  split; assumption.
Qed.

End Handle.

Section HandleWitnesses.

Import HtmlSource Pipeline.

(** The preset [structure] on a two-line page, third to ninth character. *)
Lemma handle_compressed_one_line_witness :
  ~ In 10%N
      (content
         (snd (@handle barePage
                 (mkParams None None None None None (Some (ofZ 7)) (Some (ofZ 2)) None
                    None (Some (lit "structure")))
                 (lit "<p>a</p>" ++ [10%N] ++ lit "<p>b</p>")))).
Proof.
  apply (@handle_compressed_one_line barePage
           (mkParams None None None None None (Some (ofZ 7)) (Some (ofZ 2)) None None
              (Some (lit "structure")))
           (lit "<p>a</p>" ++ [10%N] ++ lit "<p>b</p>")).
  right. exists (lit "structure"). split; [reflexivity | simpl; auto].
Defined.

(** [headOnly] on a page without a head. *)
Lemma handle_missing_section_empty_witness :
  content
    (snd (@handle barePage
            (mkParams None None None None None None None (Some true) None None)
            (lit "<svg></svg>")))
  = []
  /\ totalLength
       (snd (@handle barePage
               (mkParams None None None None None None None (Some true) None None)
               (lit "<svg></svg>")))
     = 0%Z.
Proof.
  apply (@handle_missing_section_empty barePage
           (mkParams None None None None None None None (Some true) None None)
           (lit "<svg></svg>")).
  - left; reflexivity.
  - reflexivity.
  - left. split; reflexivity.
Defined.

(** The selector [.content] on a page where it matches nothing. *)
Lemma handle_missing_selector_empty_witness :
  content
    (snd (@handle barePage
            (mkParams None None None None (Some (lit ".content")) None None None
               None None)
            (lit "<p>a</p>")))
  = []
  /\ totalLength
       (snd (@handle barePage
               (mkParams None None None None (Some (lit ".content")) None None
                  None None None)
               (lit "<p>a</p>")))
     = 0%Z.
Proof.
  apply (@handle_missing_selector_empty barePage
           (mkParams None None None None (Some (lit ".content")) None None None
              None None)
           (lit "<p>a</p>") 46%N (lit "content")).
  - reflexivity.
  - reflexivity.
  - reflexivity.
  - right. reflexivity.
Defined.

End HandleWitnesses.

(** ** More on the recorder and the cookie filter *)

Section RecorderMore.

Import Network RequestShapes.

Lemma fold_capture_documents (events : list Request) (init : RequestInfo) :
  fold_left captureRequest events init
  = fold_left captureRequest (filter isDocument events) init.
Proof.
  revert init; induction events as [|r events IH]; intros init; [reflexivity|].
  cbn [fold_left filter]. unfold isDocument at 1.
  destruct (str_eqb (resourceType r) (lit "document")) eqn:E.
  - cbn [fold_left]. apply IH.
  - unfold captureRequest at 2. rewrite E. apply IH.
Qed.

Lemma filter_none (A : Type) (f : A -> bool) (l : list A) :
  Forall (fun x => f x = false) l -> filter f l = [].
Proof.
  induction 1 as [|x l Hx _ IH]; [reflexivity|]. cbn [filter].
  rewrite Hx. exact IH.
Qed.

(** X14.  What the recorder holds depends on the document requests of
    the stream alone: scripts, images and other requests never change
    it.  With no document request in the stream it holds nothing after a
    reload, and without a reload the snapshot made from the page's URL
    ([GET], no headers, no body). *)
Theorem recordRequest_documents_only (reload : bool) (pageUrl : jsstring)
    (events : list Request) :
  recordRequest reload pageUrl events
  = recordRequest reload pageUrl (filter isDocument events)
  /\ (filter isDocument events = [] ->
      recordRequest reload pageUrl events
      = if reload then None
        else Some (mkSnapshot pageUrl (lit "GET") [] None)).
Proof.
  unfold recordRequest. split; [apply fold_capture_documents|].
  intros H. rewrite fold_capture_documents, H. reflexivity.
Qed.

Context `{R : Runtime}.

Lemma join_space_2 (a b : jsstring) :
  join (lit " ") [a; b] = a ++ lit " " ++ b.
Proof. reflexivity. Qed.

(** X15.  When the listener saw no document request (with or without
    [reload]), building the response and its command from what was
    recorded and the matched cookies succeeds: [generateCurlCommand]
    does not throw on it, the response has the page's URL, the method
    [GET], the matched cookies and no body, and the command is
    [curl '<url>'], followed by the one [Cookie] argument when cookies
    matched. *)
Theorem respond_without_document (reload : bool) (pageUrl : jsstring)
    (events : list Request) (matched : list Cookie) :
  Forall (fun r => isDocument r = false) events ->
  exists response,
    respond (recordRequest reload pageUrl events) pageUrl matched
    = Ok (response,
          lit "curl " ++ quoted pageUrl
          ++ match matched with
             | [] => []
             | _ :: _ =>
                 lit " -H " ++ quoted (lit "Cookie: " ++ cookieString matched)
             end)
    /\ url response = pageUrl
    /\ method response = lit "GET"
    /\ cookies response = matched
    /\ postData response = None.
Proof.
  intros H. apply filter_none in H.
  unfold recordRequest. rewrite fold_capture_documents, H. cbn [fold_left].
  match goal with |- context [respond ?r _ _] => set (ri := r) end.
  exists (buildResponse ri pageUrl matched).
  split; [|repeat split].
  - unfold respond, generateCurlCommand. rewrite generateCurlParts_shape.
    assert (Ep : postData (buildResponse ri pageUrl matched) = None)
      by (subst ri; destruct reload; reflexivity).
    rewrite Ep. cbn [dataArgs bind].
    assert (Eb : baseArgs (buildResponse ri pageUrl matched)
                 = [lit "curl"; quoted pageUrl]).
    { unfold baseArgs, buildResponse. cbn [url method headers].
      rewrite headerArgs_addCookieHeader. subst ri.
      destruct reload; cbn [ri_url ri_method ri_headers]; unfold or_else;
        destruct (truthy pageUrl); reflexivity. }
    rewrite Eb. do 2 f_equal.
    assert (Ec : cookies (buildResponse ri pageUrl matched) = matched)
      by reflexivity.
    rewrite Ec. destruct matched as [|c cs]; cbn [cookieArgs app join].
    + rewrite app_nil_r. reflexivity.
    + reflexivity.
  - unfold buildResponse. cbn [url]. subst ri. destruct reload; [reflexivity|].
    cbn [ri_url]. unfold or_else. destruct (truthy pageUrl); reflexivity.
  - unfold buildResponse. cbn [method]. subst ri. destruct reload; reflexivity.
  - subst ri. destruct reload; reflexivity.
Qed.

End RecorderMore.

Section RecorderMoreWitnesses.

Import Network RequestShapes.

(** No reload, one cookie. *)
Lemma respond_without_document_witness :
  exists response,
    @respond asciiRuntime
      (recordRequest false (lit "http://example.com/a")
         [mkRequest (lit "image") (lit "http://example.com/i.png") (lit "GET")
            [] None])
      (lit "http://example.com/a")
      [mkCookie (lit "sid") (lit "1") (lit "example.com") (lit "/") true false]
    = Ok (response, lit "curl 'http://example.com/a' -H 'Cookie: sid=1'")
    /\ url response = lit "http://example.com/a"
    /\ method response = lit "GET"
    /\ cookies response
       = [mkCookie (lit "sid") (lit "1") (lit "example.com") (lit "/") true false]
    /\ postData response = None.
Proof.
  apply (@respond_without_document asciiRuntime false (lit "http://example.com/a")
           [mkRequest (lit "image") (lit "http://example.com/i.png") (lit "GET")
              [] None]
           [mkCookie (lit "sid") (lit "1") (lit "example.com") (lit "/") true
              false]).
  repeat constructor.
Defined.

End RecorderMoreWitnesses.

Section CookieMore.

Import Network RequestShapes.

Lemma bareDomain_tl (c : Cookie) : tl (cookieDomain c) = bareDomain c.
Proof.
  unfold cookieDomain, bareDomain.
  destruct (startsWith (domain c) (lit ".")); reflexivity.
Qed.

(** X16.  The equality test of the cookie filter adds nothing: a cookie
    is kept exactly when the hostname ends with its domain taken without
    one leading dot, as a plain suffix of characters.  So a cookie whose
    domain is empty or a single dot is kept for every hostname. *)
Theorem cookieMatches_suffix (hostname : jsstring) (c : Cookie) :
  cookieMatches hostname c = endsWith hostname (bareDomain c)
  /\ (domain c = [] \/ domain c = lit "." -> cookieMatches hostname c = true).
Proof.
  assert (E : cookieMatches hostname c = endsWith hostname (bareDomain c)).
  { unfold cookieMatches. rewrite slice_1, bareDomain_tl.
    destruct (endsWith hostname (bareDomain c)) eqn:Ee; [reflexivity|].
    cbn [orb]. apply str_eqb_neq. intros ->.
    assert (Ht : endsWith (domain c) (bareDomain c) = true).
    { apply endsWith_spec. unfold bareDomain.
      destruct (startsWith (domain c) (lit ".")) eqn:Es.
      - apply startsWith_dot in Es. destruct Es as [r Er]. rewrite Er.
        exists (lit "."). reflexivity.
      - exists []. reflexivity. }
    congruence. }
  split; [exact E|].
  intros H. rewrite E. apply endsWith_spec. exists hostname.
  unfold bareDomain. destruct H as [-> | ->]; cbn; rewrite app_nil_r; reflexivity.
Qed.

End CookieMore.

(** ** Form bodies *)

Section FormBodies.

Import Network RequestShapes.

Lemma below_forall (n : nat) (P : N -> bool) :
  forallb P (below n) = true -> forall c, (c < N.of_nat n)%N -> P c = true.
Proof.
  intros H c Hc. rewrite forallb_forall in H. apply H. unfold below.
  replace c with (N.of_nat (N.to_nat c)) by apply N2Nat.id.
  apply in_map, in_seq. lia.
Qed.

Lemma encodeURIComponent_ascii (s : jsstring) :
  Forall (fun c => (c < 128)%N) s ->
  encodeURIComponent s = Ok (encodeAscii s).
Proof.
  induction 1 as [|c r Hc _ IH]; [reflexivity|].
  cbn [encodeURIComponent encodeAscii flat_map]. rewrite IH.
  fold (encodeAscii r).
  destruct (uriUnreserved c); [reflexivity|].
  unfold isLowSurrogate, isHighSurrogate.
  assert (E1 : (56320 <=? c)%N = false) by (apply N.leb_gt; lia).
  assert (E2 : (55296 <=? c)%N = false) by (apply N.leb_gt; lia).
  rewrite E1, E2. cbn [andb bind]. unfold utf8.
  assert (E3 : (c <? 128)%N = true) by (apply N.ltb_lt; lia).
  rewrite E3. cbn [flat_map]. rewrite app_nil_r. reflexivity.
Qed.

Lemma hex_round_trip (c : N) :
  (c < 128)%N ->
  hexValue (hexDigit (c / 16)) = Some (c / 16)%N
  /\ hexValue (hexDigit (c mod 16)) = Some (c mod 16)%N
  /\ ((c / 16) * 16 + c mod 16)%N = c.
Proof.
  intros Hc.
  pose proof (@below_forall 128
                (fun c => match hexValue (hexDigit (c / 16)),
                                hexValue (hexDigit (c mod 16)) with
                          | Some a, Some b =>
                              ((a =? c / 16) && (b =? c mod 16)
                               && (a * 16 + b =? c))%N
                          | _, _ => false
                          end) eq_refl c Hc) as H.
  cbn beta in H.
  destruct (hexValue (hexDigit (c / 16))) as [a|]; [|discriminate].
  destruct (hexValue (hexDigit (c mod 16))) as [b|]; [|discriminate].
  apply andb_true_iff in H. destruct H as [H H3].
  apply andb_true_iff in H. destruct H as [H1 H2].
  apply N.eqb_eq in H1, H2, H3. subst a b. auto.
Qed.

Lemma asciiFormDecode_plain (c : char16) (t : jsstring) :
  uriUnreserved c = true ->
  asciiFormDecode (c :: t) = c :: asciiFormDecode t.
Proof.
  intros H. cbn [asciiFormDecode].
  destruct (c =? 43)%N eqn:E1; [apply N.eqb_eq in E1; subst c; discriminate H|].
  destruct (c =? 37)%N eqn:E2; [apply N.eqb_eq in E2; subst c; discriminate H|].
  reflexivity.
Qed.

Lemma asciiFormDecode_pct (c : char16) (t : jsstring) :
  (c < 128)%N ->
  asciiFormDecode (pctByte c ++ t) = c :: asciiFormDecode t.
Proof.
  intros Hc. destruct (hex_round_trip Hc) as [H1 [H2 H3]].
  unfold pctByte. cbn [app asciiFormDecode].
  change (37 =? 43)%N with false. change (37 =? 37)%N with true.
  cbn iota. rewrite H1, H2, H3.
  assert (E : (c <? 128)%N = true) by (apply N.ltb_lt; exact Hc).
  rewrite E. reflexivity.
Qed.

Lemma asciiFormDecode_encodeAscii (s : jsstring) :
  Forall (fun c => (c < 128)%N) s -> asciiFormDecode (encodeAscii s) = s.
Proof.
  induction 1 as [|c r Hc _ IH]; [reflexivity|].
  cbn [encodeAscii flat_map]. fold (encodeAscii r).
  destruct (uriUnreserved c) eqn:E.
  - cbn [app]. rewrite asciiFormDecode_plain by exact E. rewrite IH. reflexivity.
  - rewrite asciiFormDecode_pct by exact Hc. rewrite IH. reflexivity.
Qed.

Lemma hexDigit_plain (n : N) : plainChar (hexDigit n) = true.
Proof.
  unfold plainChar, hexDigit. destruct (n <? 10)%N eqn:E.
  - apply N.ltb_lt in E.
    rewrite !andb_true_iff, !negb_true_iff, !N.eqb_neq. lia.
  - apply N.ltb_ge in E.
    rewrite !andb_true_iff, !negb_true_iff, !N.eqb_neq. lia.
Qed.

Lemma encodeAscii_plain (s : jsstring) :
  Forall (fun c => plainChar c = true) (encodeAscii s).
Proof.
  induction s as [|c r IH]; [constructor|].
  cbn [encodeAscii flat_map]. fold (encodeAscii r).
  apply Forall_app. split; [|exact IH].
  destruct (uriUnreserved c) eqn:E.
  - constructor; [|constructor].
    unfold plainChar. rewrite !andb_true_iff, !negb_true_iff.
    repeat split; apply N.eqb_neq; intros ->; discriminate E.
  - unfold pctByte. repeat constructor; apply hexDigit_plain.
Qed.

Lemma plainChar_inv (c : char16) :
  plainChar c = true ->
  (c =? 38)%N = false /\ (c =? 61)%N = false /\ (c =? 63)%N = false.
Proof.
  unfold plainChar. rewrite !andb_true_iff, !negb_true_iff. tauto.
Qed.

Lemma split_plain (x : jsstring) :
  Forall (fun c => plainChar c = true) x ->
  split 38%N x = [x]
  /\ forall y, split 38%N (x ++ 38%N :: y) = x :: split 38%N y.
Proof.
  induction 1 as [|c x Hc _ [IH1 IH2]].
  - split; [reflexivity|]. intros y. cbn [app split].
    change (38 =? 38)%N with true. reflexivity.
  - destruct (plainChar_inv _ Hc) as [E _].
    split; [|intros y]; cbn [app split]; rewrite E, ?IH1, ?IH2; reflexivity.
Qed.

Lemma cutAt_plain (n v : jsstring) :
  Forall (fun c => plainChar c = true) n ->
  cutAt 61%N (n ++ 61%N :: v) = (n, v).
Proof.
  induction 1 as [|c n Hc _ IH].
  - cbn [app cutAt]. change (61 =? 61)%N with true. reflexivity.
  - destruct (plainChar_inv _ Hc) as [_ [E _]].
    cbn [app cutAt]. rewrite E, IH. reflexivity.
Qed.

Lemma encodePair_plain (p : FormParam) :
  exists c r, encodePair p = c :: r /\ (c =? 63)%N = false
              /\ Forall (fun c => (c =? 38)%N = false) (encodePair p).
Proof.
  unfold encodePair. change (lit "=") with [61%N].
  pose proof (encodeAscii_plain (p_name p)) as Hn.
  pose proof (encodeAscii_plain (p_value p)) as Hv.
  assert (Ha : Forall (fun c => (c =? 38)%N = false)
                 (encodeAscii (p_name p) ++ [61%N] ++ encodeAscii (p_value p))).
  { apply Forall_app. split; [|constructor; [reflexivity|]].
    - eapply Forall_impl; [|exact Hn]. intros c Hc. apply (plainChar_inv _ Hc).
    - eapply Forall_impl; [|exact Hv]. intros c Hc. apply (plainChar_inv _ Hc). }
  destruct (encodeAscii (p_name p)) as [|c r] eqn:E.
  - eexists _, _. split; [reflexivity|]. split; [reflexivity | exact Ha].
  - eexists _, _. split; [reflexivity|]. split; [|exact Ha].
    inversion Hn as [|? ? Hc _]. apply (plainChar_inv _ Hc).
Qed.

Lemma split_no_amp (x : jsstring) :
  Forall (fun c => (c =? 38)%N = false) x ->
  split 38%N x = [x]
  /\ forall y, split 38%N (x ++ 38%N :: y) = x :: split 38%N y.
Proof.
  induction 1 as [|c x Hc _ [IH1 IH2]].
  - split; [reflexivity|]. intros y. cbn [app split].
    change (38 =? 38)%N with true. reflexivity.
  - split; [|intros y]; cbn [app split]; rewrite Hc, ?IH1, ?IH2; reflexivity.
Qed.

Lemma fieldsOfPiece_pair (p : FormParam) :
  asciiField p -> @fieldsOfPiece asciiRuntime (encodePair p) = [p].
Proof.
  intros [Hn Hv]. destruct (encodePair_plain p) as [c [r [E _]]].
  unfold fieldsOfPiece. rewrite E. rewrite <- E.
  unfold encodePair. change (lit "=") with [61%N]. cbn [app].
  rewrite (cutAt_plain _ (encodeAscii_plain (p_name p))).
  cbn [decodeFormComponent asciiRuntime].
  rewrite (asciiFormDecode_encodeAscii Hn), (asciiFormDecode_encodeAscii Hv).
  destruct p; reflexivity.
Qed.

Lemma parse_pairs (params : list FormParam) :
  params <> [] -> Forall asciiField params ->
  flat_map (@fieldsOfPiece asciiRuntime)
    (split 38%N (join (lit "&") (map encodePair params)))
  = params.
Proof.
  intros Hne Ha. induction Ha as [|p rest Hp Hrest IH]; [contradiction|].
  destruct (encodePair_plain p) as [_ [_ [_ [_ Hamp]]]].
  destruct (split_no_amp Hamp) as [S1 S2].
  destruct rest as [|q rest].
  - cbn [map join]. rewrite S1. cbn [flat_map].
    rewrite (fieldsOfPiece_pair Hp). reflexivity.
  - change (join (lit "&") (map encodePair (p :: q :: rest)))
      with (encodePair p ++ 38%N :: join (lit "&") (map encodePair (q :: rest))).
    rewrite S2. cbn [flat_map].
    rewrite (fieldsOfPiece_pair Hp), IH by discriminate. reflexivity.
Qed.

Lemma mapM_encode_ascii (params : list FormParam) :
  Forall asciiField params ->
  mapM (fun p =>
          n <- encodeURIComponent (p_name p) ;;
          v <- encodeURIComponent (p_value p) ;;
          Ok (n ++ lit "=" ++ v)) params
  = Ok (map encodePair params).
Proof.
  induction 1 as [|p rest [Hn Hv] _ IH]; [reflexivity|].
  cbn [mapM map]. rewrite (encodeURIComponent_ascii Hn),
    (encodeURIComponent_ascii Hv), IH. reflexivity.
Qed.

(** X17.  A form body survives the command: when the fields are ASCII
    text and the first one is not named [raw], the command is produced,
    its last argument is [-d '<data>'], and parsing [data] again as a
    form body gives back exactly the fields, names and values, in
    order. *)
Theorem form_body_round_trip (info : Response) (ct : jsstring)
    (first : FormParam) (rest : list FormParam) :
  postData info = Some (mkPostData ct (first :: rest)) ->
  str_eqb (p_name first) (lit "raw") = false ->
  Forall asciiField (first :: rest) ->
  exists pre data,
    @generateCurlParts asciiRuntime info = Ok (pre ++ [lit "-d"; quoted data])
    /\ @urlSearchParams asciiRuntime data = first :: rest.
Proof.
  intros Hpd Hraw Ha.
  exists (@baseArgs asciiRuntime info ++ cookieArgs (cookies info)),
    (join (lit "&") (map encodePair (first :: rest))).
  split.
  - rewrite generateCurlParts_shape, Hpd. unfold dataArgs. cbn [params].
    rewrite Hraw, (mapM_encode_ascii Ha). cbn [bind].
    rewrite <- app_assoc. reflexivity.
  - change (@urlSearchParams asciiRuntime
              (join (lit "&") (map encodePair (first :: rest))))
      with (flat_map (@fieldsOfPiece asciiRuntime)
              (split 38%N
                 (withoutQuestionMark
                    (join (lit "&") (map encodePair (first :: rest)))))).
    assert (E : withoutQuestionMark
                  (join (lit "&") (map encodePair (first :: rest)))
                = join (lit "&") (map encodePair (first :: rest))).
    { destruct (encodePair_plain first) as [c [r [E [Hq _]]]].
      cbn [map]. destruct (map encodePair rest) as [|x xs];
        cbn [join]; rewrite E; cbn [app withoutQuestionMark];
        rewrite Hq; reflexivity. }
    rewrite E. apply parse_pairs; [discriminate | exact Ha].
Qed.

(** A login form with a space, an ampersand and an equals sign in its
    values. *)
Lemma form_body_round_trip_witness :
  exists pre data,
    @generateCurlParts asciiRuntime
      (mkInfo (lit "http://example.com/login") (lit "POST") [] []
         (Some (mkPostData (lit "application/x-www-form-urlencoded")
                  [mkParam (lit "user") (lit "a b&c"); mkParam (lit "q") (lit "1=2")])))
    = Ok (pre ++ [lit "-d"; quoted data])
    /\ @urlSearchParams asciiRuntime data
       = [mkParam (lit "user") (lit "a b&c"); mkParam (lit "q") (lit "1=2")].
Proof.
  apply (@form_body_round_trip
           (mkInfo (lit "http://example.com/login") (lit "POST") [] []
              (Some (mkPostData (lit "application/x-www-form-urlencoded")
                       [mkParam (lit "user") (lit "a b&c");
                        mkParam (lit "q") (lit "1=2")])))
           (lit "application/x-www-form-urlencoded")
           (mkParam (lit "user") (lit "a b&c")) [mkParam (lit "q") (lit "1=2")]).
  - reflexivity.
  - reflexivity.
  - repeat constructor.
Defined.

End FormBodies.

(** ** When the command is produced and when it is not *)

Section CurlMore.

Import Network RequestShapes.

Context `{R : Runtime}.

Lemma encodeURIComponent_error (s : jsstring) (e : JsError) :
  encodeURIComponent s = Throw e -> e = URIError.
Proof.
  induction s as [s IH] using jsstring_length_ind.
  destruct s as [|c r]; [discriminate|]. cbn [encodeURIComponent].
  destruct (uriUnreserved c).
  { destruct (encodeURIComponent r) eqn:E; cbn [bind]; [discriminate|].
    intros H. inversion H. subst. apply (IH r); [cbn [length]; lia | exact E]. }
  destruct (isLowSurrogate c); [intros H; inversion H; reflexivity|].
  destruct (isHighSurrogate c).
  - destruct r as [|d r']; [intros H; inversion H; reflexivity|].
    destruct (isLowSurrogate d); [|intros H; inversion H; reflexivity].
    destruct (encodeURIComponent r') eqn:E; cbn [bind]; [discriminate|].
    intros H. inversion H. subst. apply (IH r'); [cbn [length]; lia | exact E].
  - destruct (encodeURIComponent r) eqn:E; cbn [bind]; [discriminate|].
    intros H. inversion H. subst. apply (IH r); [cbn [length]; lia | exact E].
Qed.

Lemma mapM_encode_error (ps : list FormParam) (e : JsError) :
  mapM (fun p =>
          n <- encodeURIComponent (p_name p) ;;
          v <- encodeURIComponent (p_value p) ;;
          Ok (n ++ lit "=" ++ v)) ps
  = Throw e -> e = URIError.
Proof.
  induction ps as [|p ps IH]; [discriminate|]. cbn [mapM].
  destruct (encodeURIComponent (p_name p)) eqn:En; cbn [bind];
    [|intros H; inversion H; subst; exact (encodeURIComponent_error _ En)].
  destruct (encodeURIComponent (p_value p)) eqn:Ev; cbn [bind];
    [|intros H; inversion H; subst; exact (encodeURIComponent_error _ Ev)].
  destruct (mapM _ ps) eqn:Em; cbn [bind]; [discriminate|].
  intros H. inversion H. subst. apply IH. reflexivity.
Qed.

Lemma dataArgs_type_error (pd : option PostData) :
  dataArgs pd = Throw TypeError <-> exists d, pd = Some d /\ params d = [].
Proof.
  split.
  - destruct pd as [d|]; [|discriminate]. cbn [dataArgs].
    destruct (params d) as [|first rest] eqn:E; [eauto|].
    destruct (str_eqb (p_name first) (lit "raw")); [discriminate|].
    destruct (mapM _ (first :: rest)) eqn:Em; cbn [bind]; [discriminate|].
    intros H. inversion H. subst. apply mapM_encode_error in Em. discriminate Em.
  - intros [d [-> E]]. cbn [dataArgs]. rewrite E. reflexivity.
Qed.

Lemma generateCurlParts_throw (info : Response) (e : JsError) :
  generateCurlParts info = Throw e <-> dataArgs (postData info) = Throw e.
Proof.
  rewrite generateCurlParts_shape.
  destruct (dataArgs (postData info)); cbn [bind]; split; congruence.
Qed.

Lemma encodeURIComponent_surrogate (s : jsstring) (e : JsError) :
  encodeURIComponent s = Throw e ->
  exists c, In c s /\ isHighSurrogate c || isLowSurrogate c = true.
Proof.
  revert e. induction s as [s IH] using jsstring_length_ind. intros e.
  destruct s as [|c r]; [discriminate|]. cbn [encodeURIComponent].
  assert (Hr : forall t x, (length t < length (c :: r))%nat ->
               encodeURIComponent t = Throw x -> incl t r ->
               exists c0, In c0 (c :: r)
                          /\ isHighSurrogate c0 || isLowSurrogate c0 = true).
  { intros t x Hl Ht Hi. destruct (IH t Hl x Ht) as [c0 [H1 H2]].
    exists c0. split; [right; apply Hi, H1 | exact H2]. }
  destruct (uriUnreserved c).
  { destruct (encodeURIComponent r) eqn:E; cbn [bind]; [discriminate|].
    intros _. apply (Hr r e0); [cbn [length]; lia | exact E | apply incl_refl]. }
  destruct (isLowSurrogate c) eqn:El.
  { intros _. exists c. split; [left; reflexivity|]. rewrite El.
    apply orb_true_r. }
  destruct (isHighSurrogate c) eqn:Eh.
  - intros _. exists c. split; [left; reflexivity|]. rewrite Eh. reflexivity.
  - destruct (encodeURIComponent r) eqn:E; cbn [bind]; [discriminate|].
    intros _. apply (Hr r e0); [cbn [length]; lia | exact E | apply incl_refl].
Qed.

Lemma mapM_encode_surrogate (ps : list FormParam) (e : JsError) :
  mapM (fun p =>
          n <- encodeURIComponent (p_name p) ;;
          v <- encodeURIComponent (p_value p) ;;
          Ok (n ++ lit "=" ++ v)) ps
  = Throw e ->
  exists p c, In p ps /\ In c (p_name p ++ p_value p)
              /\ isHighSurrogate c || isLowSurrogate c = true.
Proof.
  induction ps as [|p ps IH]; [discriminate|]. cbn [mapM].
  destruct (encodeURIComponent (p_name p)) eqn:En; cbn [bind].
  - destruct (encodeURIComponent (p_value p)) eqn:Ev; cbn [bind].
    + destruct (mapM _ ps) eqn:Em; cbn [bind]; [discriminate|].
      intros H. destruct (IH H) as [q [c [H1 H2]]].
      exists q, c. split; [right; exact H1 | exact H2].
    + intros _. destruct (encodeURIComponent_surrogate _ Ev) as [c [H1 H2]].
      exists p, c. split; [left; reflexivity|].
      split; [apply in_or_app; right; exact H1 | exact H2].
  - intros _. destruct (encodeURIComponent_surrogate _ En) as [c [H1 H2]].
    exists p, c. split; [left; reflexivity|].
    split; [apply in_or_app; left; exact H1 | exact H2].
Qed.

(** X19.  [generateCurlCommand] throws a [TypeError] exactly when the
    response carries POST data whose list of fields is empty.  It throws
    a [URIError] only for POST data with a field, name or value, that
    holds a surrogate code unit; text decoded from UTF-8 has none. *)
Theorem generateCurlCommand_type_error (info : Response) :
  (generateCurlCommand info = Throw TypeError
   <-> exists d, postData info = Some d /\ params d = [])
  /\ (generateCurlCommand info = Throw URIError ->
      exists d p c,
        postData info = Some d /\ In p (params d)
        /\ In c (p_name p ++ p_value p)
        /\ isHighSurrogate c || isLowSurrogate c = true).
Proof.
  assert (E : forall e, generateCurlCommand info = Throw e
                        <-> generateCurlParts info = Throw e).
  { intros e. unfold generateCurlCommand.
    destruct (generateCurlParts info); cbn [bind]; split; congruence. }
  split.
  - rewrite E, generateCurlParts_throw. apply dataArgs_type_error.
  - rewrite E, generateCurlParts_throw.
    destruct (postData info) as [d|]; [|discriminate]. cbn [dataArgs].
    destruct (params d) as [|first rest] eqn:Ep; [discriminate|].
    destruct (str_eqb (p_name first) (lit "raw")); [discriminate|].
    destruct (mapM _ (first :: rest)) eqn:Em; cbn [bind]; [discriminate|].
    intros _. destruct (mapM_encode_surrogate _ Em) as [p [c [H1 [H2 H3]]]].
    exists d, p, c. rewrite Ep. auto.
Qed.

Lemma fieldsOfPiece_nil (piece : jsstring) :
  fieldsOfPiece piece = [] <-> piece = [].
Proof.
  destruct piece as [|c r]; [tauto|]. unfold fieldsOfPiece.
  destruct (cutAt 61%N (c :: r)). split; discriminate.
Qed.

Lemma split_head (c : char16) (r : jsstring) :
  (c =? 38)%N = false ->
  exists h t, split 38%N (c :: r) = (c :: h) :: t.
Proof.
  intros E. cbn [split]. rewrite E. destruct (split 38%N r); eauto.
Qed.

Lemma parse_pieces_nil (b : jsstring) :
  flat_map fieldsOfPiece (split 38%N b) = [] <-> Forall (fun c => c = 38%N) b.
Proof.
  induction b as [|c r IH]; [split; [constructor | reflexivity]|].
  destruct (c =? 38)%N eqn:E.
  - cbn [split]. rewrite E. cbn [flat_map fieldsOfPiece app]. rewrite IH.
    apply N.eqb_eq in E. subst c. split.
    + intros H. constructor; [reflexivity | exact H].
    + intros H. inversion H. assumption.
  - destruct (split_head c r E) as [h [t Es]]. rewrite Es. cbn [flat_map]. split.
    + intros H. apply app_eq_nil in H. destruct H as [H _].
      apply fieldsOfPiece_nil in H. discriminate H.
    + intros H. inversion H as [|? ? Hc _]. subst c. discriminate E.
Qed.

Lemma parsePostData_nil (body : jsstring) (ct : option jsstring) :
  parsePostData body ct = []
  <-> isFormType ct = true
      /\ Forall (fun c => c = 38%N) (withoutQuestionMark body).
Proof.
  unfold parsePostData. fold (isFormType ct).
  destruct (isFormType ct).
  - change (urlSearchParams body)
      with (flat_map fieldsOfPiece (split 38%N (withoutQuestionMark body))).
    rewrite parse_pieces_nil. tauto.
  - split; [discriminate | intros [H _]; discriminate H].
Qed.

(** X20.  The whole answer fails with a [TypeError] in one case only: a
    captured request with a non-empty body, with no content type or a
    form-urlencoded one, whose body is made of [&] alone, after the one
    leading [?] that the form parser drops ([&], [&&], [?], [?&] ...). *)
Theorem respond_type_error (requestInfo : RequestInfo) (pageUrl : jsstring)
    (matched : list Cookie) :
  respond requestInfo pageUrl matched = Throw TypeError
  <-> exists s body,
        requestInfo = Some s /\ ri_postData s = Some body
        /\ truthy body = true
        /\ isFormType (getHeader (ri_headers s) (lit "content-type")) = true
        /\ Forall (fun c => c = 38%N) (withoutQuestionMark body).
Proof.
  assert (E : respond requestInfo pageUrl matched = Throw TypeError
              <-> dataArgs (postData (buildResponse requestInfo pageUrl matched))
                  = Throw TypeError).
  { rewrite <- generateCurlParts_throw. unfold respond, generateCurlCommand.
    destruct (generateCurlParts _); cbn [bind]; split; congruence. }
  rewrite E, dataArgs_type_error. clear E.
  unfold buildResponse. cbn [postData]. unfold addPostData.
  rewrite content_type_addCookieHeader.
  destruct requestInfo as [s|].
  - destruct (ri_postData s) as [body|] eqn:Eb.
    + destruct (truthy body) eqn:Et.
      * split.
        -- intros [d [Hd Hp]]. inversion Hd. subst d. cbn [params] in Hp.
           apply parsePostData_nil in Hp. destruct Hp as [H1 H2].
           exists s, body. auto.
        -- intros [s' [body' [Hs [Hb [_ [H1 H2]]]]]]. inversion Hs. subst s'.
           rewrite Eb in Hb. inversion Hb. subst body'.
           eexists. split; [reflexivity|]. cbn [params].
           apply parsePostData_nil. auto.
      * split.
        -- intros [d [Hd _]]. discriminate Hd.
        -- intros [s' [body' [Hs [Hb [Ht _]]]]]. inversion Hs. subst s'.
           rewrite Eb in Hb. inversion Hb. subst body'. congruence.
    + split.
      * intros [d [Hd _]]. discriminate Hd.
      * intros [s' [body' [Hs [Hb _]]]]. inversion Hs. subst s'. congruence.
  - split.
    + intros [d [Hd _]]. discriminate Hd.
    + intros [s' [body' [Hs _]]]. discriminate Hs.
Qed.

(** X18.  A body whose content type is not form-urlencoded goes into the
    command as it is: the command is produced and ends with
    [-d '<body>'], the body unchanged and unescaped. *)
Theorem raw_body_verbatim (s : Snapshot) (pageUrl : jsstring)
    (matched : list Cookie) (body ct : jsstring) :
  ri_postData s = Some body -> truthy body = true ->
  getHeader (ri_headers s) (lit "content-type") = Some ct ->
  truthy ct = true ->
  includes ct (lit "application/x-www-form-urlencoded") = false ->
  exists pre,
    generateCurlParts (buildResponse (Some s) pageUrl matched)
    = Ok (pre ++ [lit "-d"; quoted body])
    /\ postData (buildResponse (Some s) pageUrl matched)
       = Some (mkPostData ct [mkParam (lit "raw") body]).
Proof.
  intros Hb Ht Hct Htc Hinc.
  assert (Ep : postData (buildResponse (Some s) pageUrl matched)
               = Some (mkPostData ct [mkParam (lit "raw") body])).
  { unfold buildResponse. cbn [postData]. unfold addPostData.
    rewrite content_type_addCookieHeader, Hb, Ht, Hct.
    unfold parsePostData, or_else. cbn [truthyOpt]. rewrite Htc, Hinc.
    reflexivity. }
  eexists. split; [|exact Ep].
  rewrite generateCurlParts_shape, Ep. cbn [dataArgs params p_name p_value].
  change (str_eqb (lit "raw") (lit "raw")) with true. cbn [bind].
  rewrite app_assoc. reflexivity.
Qed.

Lemma getHeader_setHeader_same (h : Headers) (key v : jsstring) :
  getHeader (setHeader h key v) key = Some v.
Proof.
  induction h as [|[k w] h IH]; cbn [setHeader getHeader].
  - rewrite str_eqb_refl. reflexivity.
  - destruct (str_eqb k key) eqn:E; cbn [getHeader]; rewrite E; auto.
Qed.

(** X21.  The [headers] of the response are the captured headers with
    one change at most: when cookies matched and the capture has no
    non-empty [cookie] header, the property [Cookie] holds the matched
    cookies as [name=value] pairs joined by [; ].  Every other header
    reads as captured, and without that condition the headers are the
    captured ones, untouched. *)
Theorem buildResponse_headers (requestInfo : RequestInfo)
    (pageUrl : jsstring) (matched : list Cookie) :
  (matched <> [] ->
   truthyOpt
     (getHeader match requestInfo with Some s => ri_headers s | None => [] end
        (lit "cookie")) = false ->
   getHeader (headers (buildResponse requestInfo pageUrl matched)) (lit "Cookie")
   = Some (cookieString matched))
  /\ (forall key, key <> lit "Cookie" ->
      getHeader (headers (buildResponse requestInfo pageUrl matched)) key
      = getHeader match requestInfo with Some s => ri_headers s | None => [] end
          key)
  /\ (matched = []
      \/ truthyOpt
           (getHeader match requestInfo with Some s => ri_headers s | None => [] end
              (lit "cookie")) = true ->
      headers (buildResponse requestInfo pageUrl matched)
      = match requestInfo with Some s => ri_headers s | None => [] end).
Proof.
  unfold buildResponse. cbn [headers]. unfold addCookieHeader.
  set (h0 := match requestInfo with Some s => ri_headers s | None => [] end).
  split; [|split].
  - intros Hm Hc. destruct matched as [|c cs]; [contradiction|].
    rewrite Hc. cbn [negb]. apply getHeader_setHeader_same.
  - intros key Hk. destruct matched as [|c cs]; [reflexivity|].
    destruct (negb _); [|reflexivity].
    apply getHeader_setHeader_other. apply str_eqb_neq. congruence.
  - intros [-> | Hc]; [reflexivity|]. rewrite Hc. cbn [negb].
    destruct matched; reflexivity.
Qed.

Lemma headerArgs_filter_skipped (h : Headers) :
  flat_map headerArgs (filter (fun e => negb (skipped (fst e))) h)
  = flat_map headerArgs h.
Proof.
  induction h as [|e h IH]; [reflexivity|]. cbn [filter flat_map].
  destruct (skipped (fst e)) eqn:E; cbn [negb flat_map].
  - unfold headerArgs at 2. rewrite E. exact IH.
  - rewrite IH. reflexivity.
Qed.

(** X22.  A [cookie] or [content-length] header of the response, in any
    letter case, adds nothing to the command: the command is the one of
    the same response without these headers, so the other headers are
    its only header arguments, in their order. *)
Theorem generateCurlCommand_skips (info : Response) :
  generateCurlCommand info
  = generateCurlCommand
      (withHeaders info
         (filter (fun e => negb (skipped (fst e))) (headers info)))
  /\ forall k v,
       skipped k = true ->
       generateCurlCommand (withHeaders info ((k, v) :: headers info))
       = generateCurlCommand info.
Proof.
  unfold generateCurlCommand. split; [|intros k v Hk];
    rewrite !generateCurlParts_shape; unfold baseArgs, withHeaders;
    cbn [url method headers cookies postData flat_map].
  - rewrite headerArgs_filter_skipped. reflexivity.
  - unfold headerArgs at 1. cbn [fst]. rewrite Hk. reflexivity.
Qed.

End CurlMore.

Section CurlMoreWitnesses.

Import Network RequestShapes.

(** A JSON body with a single quote in it. *)
Lemma raw_body_verbatim_witness :
  exists pre,
    @generateCurlParts asciiRuntime
      (@buildResponse asciiRuntime
         (Some (mkSnapshot (lit "http://example.com/api") (lit "POST")
                  [(lit "content-type", lit "application/json")]
                  (Some (lit "{'a': 1}"))))
         (lit "http://example.com/api") [])
    = Ok (pre ++ [lit "-d"; quoted (lit "{'a': 1}")])
    /\ postData
         (@buildResponse asciiRuntime
            (Some (mkSnapshot (lit "http://example.com/api") (lit "POST")
                     [(lit "content-type", lit "application/json")]
                     (Some (lit "{'a': 1}"))))
            (lit "http://example.com/api") [])
       = Some (mkPostData (lit "application/json")
                 [mkParam (lit "raw") (lit "{'a': 1}")]).
Proof.
  apply (@raw_body_verbatim asciiRuntime
           (mkSnapshot (lit "http://example.com/api") (lit "POST")
              [(lit "content-type", lit "application/json")]
              (Some (lit "{'a': 1}")))
           (lit "http://example.com/api") [] (lit "{'a': 1}")
           (lit "application/json")); reflexivity.
Defined.

End CurlMoreWitnesses.

(** ** Pretty printing compact markup *)

Section PrettyCompact.

Import HtmlSource Pipeline.

Lemma tag_boundary_breakTags (s : jsstring) :
  replaceAll match_tag_boundary (lit ">" ++ [10%N] ++ lit "<") 0 s
  = breakTags s.
Proof.
  induction s as [s IH] using jsstring_length_ind.
  destruct s as [|c r]; [reflexivity|].
  cbn [replaceAll breakTags]. rewrite match_tag_boundary_cons.
  destruct ((c =? 62)%N && match r with d :: _ => (d =? 60)%N | [] => false end)
    eqn:E.
  - destruct r as [|d r']; [rewrite andb_false_r in E; discriminate|].
    apply andb_true_iff in E. destruct E as [Ec Ed].
    apply N.eqb_eq in Ec, Ed. subst c d. cbn [replaceAll breakTags].
    change (60 =? 62)%N with false. cbn [andb].
    rewrite IH by (cbn [length]; lia). reflexivity.
  - rewrite IH by (cbn [length]; lia). reflexivity.
Qed.

Lemma ws_of_lineTerminator (c : char16) :
  isWhiteSpace c = false -> isLineTerminator c = false.
Proof.
  intros H. unfold isLineTerminator.
  destruct (c =? 10)%N eqn:E1; [apply N.eqb_eq in E1; subst; discriminate H|].
  destruct (c =? 13)%N eqn:E2; [apply N.eqb_eq in E2; subst; discriminate H|].
  destruct (c =? 8232)%N eqn:E3; [apply N.eqb_eq in E3; subst; discriminate H|].
  destruct (c =? 8233)%N eqn:E4; [apply N.eqb_eq in E4; subst; discriminate H|].
  reflexivity.
Qed.

Lemma trimLines_plain (c : char16) (r : jsstring) (b : bool) :
  isWhiteSpace c = false ->
  trimLines b 0 (c :: r) = c :: trimLines false 0 r.
Proof.
  intros H. cbn [trimLines]. unfold match_ws. cbn [wsRun match_ws_eol].
  rewrite H, (ws_of_lineTerminator _ H). destruct b; reflexivity.
Qed.

Lemma trimLines_lf (d : char16) (x : jsstring) :
  isWhiteSpace d = false ->
  trimLines false 0 (10%N :: d :: x) = 10%N :: trimLines true 0 (d :: x).
Proof.
  intros H.
  assert (E : match_ws_eol (10%N :: d :: x) = None).
  { cbn [match_ws_eol]. rewrite H, (ws_of_lineTerminator _ H). reflexivity. }
  change (trimLines false 0 (10%N :: d :: x))
    with (match match_ws_eol (10%N :: d :: x) with
          | Some (S k) => trimLines true k (d :: x)
          | _ => 10%N :: trimLines true 0 (d :: x)
          end).
  rewrite E. reflexivity.
Qed.

Lemma trimLines_breakTags (s : jsstring) :
  Forall (fun c => isWhiteSpace c = false) s ->
  forall b, trimLines b 0 (breakTags s) = breakTags s.
Proof.
  induction 1 as [|c r Hc Hr IH]; intros b; [reflexivity|].
  cbn [breakTags].
  destruct ((c =? 62)%N
            && match r with d :: _ => (d =? 60)%N | [] => false end) eqn:E.
  - rewrite trimLines_plain by exact Hc. f_equal.
    destruct r as [|d r']; [rewrite andb_false_r in E; discriminate E|].
    apply andb_true_iff in E. destruct E as [_ Ed]. apply N.eqb_eq in Ed.
    subst d. specialize (IH true).
    match type of IH with
    | _ = ?x => assert (Eb : x = 60%N :: breakTags r') by reflexivity
    end.
    rewrite Eb in IH. rewrite Eb. rewrite trimLines_lf by reflexivity.
    f_equal. exact IH.
  - rewrite trimLines_plain by exact Hc. rewrite IH. reflexivity.
Qed.

(** X23.  On markup without white space the pretty printer puts a line
    feed between every [>] and the [<] directly behind it and changes
    nothing else: every tag boundary starts a new line. *)
Theorem prettyPrintStage_compact (s : jsstring) :
  Forall (fun c => isWhiteSpace c = false) s ->
  prettyPrintStage s = breakTags s.
Proof.
  intros H. unfold prettyPrintStage.
  rewrite tag_boundary_breakTags. apply (trimLines_breakTags H).
Qed.

(** A heading and a paragraph. *)
Lemma prettyPrintStage_compact_witness :
  prettyPrintStage (lit "<h1>T</h1><p>x</p>")
  = lit "<h1>T</h1>" ++ [10%N] ++ lit "<p>x</p>".
Proof.
  rewrite (@prettyPrintStage_compact (lit "<h1>T</h1><p>x</p>")).
  - reflexivity.
  - repeat constructor.
Defined.

End PrettyCompact.
